(** * Moco's CasOC transcription front end, the orientation-tracking cost
      setters and the [simulate] driver: a shallow embedding.

    The development follows the C++ sources file by file:

    - [OpenSim]   : the exception value and the [format] helper used by
                    [OPENSIM_THROW], and the small error-and-log monad in
                    which the throwing code is written;
    - [CasOC]     : [Solver::solve] (CasOCProblem.cpp) and the [Trapezoidal]
                    constructor (CasOCTrapezoidal.h), together with the parts
                    of the transcription engine that those two files only
                    declare;
    - [Moco]      : the setters of [MocoOrientationTrackingCost];
    - [SimulationUtilities] : the [simulate] driver.

    All definitions come first; the statements about them follow. *)

From Stdlib Require Import String Ascii Bool Arith ZArith QArith Lia Lqa List.
From Stdlib Require Import Floats.
Import ListNotations.

Set Implicit Arguments.

(* ================================================================== *)
(** * OpenSim: exceptions and the effect monad                         *)
(* ================================================================== *)

Module OpenSim.

(** [OpenSim::Exception].  Every throw site of the files embedded here
    raises this one class; a throw is told apart by its message. *)
Record Exception : Type := mkException { getMessage : string }.

(** [OpenSim::format] for a format string with one [%s] directive: the
    first [%s] is replaced by the argument. *)
Fixpoint format (fmt arg : string) : string :=
  match fmt with
  | EmptyString => EmptyString
  | String c rest =>
      match rest with
      | String c' rest' =>
          if (Ascii.eqb c "%" && Ascii.eqb c' "s")%bool
          then (arg ++ rest')%string
          else String c (format rest arg)
      | EmptyString => String c EmptyString
      end
  end.

(** A computation either throws or returns, and appends to a log of the
    calls it made.  The log only ever grows. *)
Section Effects.
Variable Ev : Type.

Definition M (A : Type) : Type := list Ev -> (Exception + A) * list Ev.

Definition ret {A} (a : A) : M A := fun log => (inr a, log).

Definition bind {A B} (m : M A) (k : A -> M B) : M B :=
  fun log =>
    match m log with
    | (inl e, log') => (inl e, log')
    | (inr a, log') => k a log'
    end.

Definition throw {A} (e : Exception) : M A := fun log => (inl e, log).

Definition emit (ev : Ev) : M unit := fun log => (inr tt, log ++ [ev]).

(** Lift a pure, possibly failing result. *)
Definition lift {A} (r : Exception + A) : M A := fun log => (r, log).

(** Run from the empty log. *)
Definition run {A} (m : M A) : (Exception + A) * list Ev := m [].

(** [OPENSIM_THROW(Exception, msg)]. *)
Definition OPENSIM_THROW {A} (msg : string) : M A :=
  throw (mkException msg).

(** [OPENSIM_THROW_IF(cond, Exception, msg)]. *)
Definition OPENSIM_THROW_IF (cond : bool) (msg : string) : M unit :=
  if cond then OPENSIM_THROW msg else ret tt.
End Effects.

Arguments ret {Ev A} a.
Arguments bind {Ev A B} m k.
Arguments throw {Ev A} e.
Arguments emit {Ev} ev.
Arguments lift {Ev A} r.
Arguments run {Ev A} m.
Arguments OPENSIM_THROW {Ev A} msg.
Arguments OPENSIM_THROW_IF {Ev} cond msg.

End OpenSim.

Declare Scope eff_scope.
Delimit Scope eff_scope with eff.
Notation "x <- m ;; k" := (OpenSim.bind m (fun x => k))
  (at level 61, m at next level, right associativity) : eff_scope.
Notation "m ;;; k" := (OpenSim.bind m (fun _ => k))
  (at level 61, right associativity) : eff_scope.

(* ================================================================== *)
(** * CasOC: Solver, Problem, Transcription, Trapezoidal               *)
(* ================================================================== *)

Module CasOC.
Import OpenSim.
Local Open Scope eff_scope.

(** ** Problem (declared in CasOCProblem.h) *)

(** Modelled from the spec: a lower/upper pair (section 3, Bounds), over the
    rationals where the program has doubles. *)
Record Bounds : Type := mkBounds { lower : Q; upper : Q }.

(** Modelled from the spec: the three bound tiers of a state or control
    (section 3, Bounds): the default pair, the initial-node override and the
    final-node override.  The class that stores them is declared in
    CasOCProblem.h. *)
Record TieredBounds : Type := mkTiered {
  default_tier : Bounds;
  initial_tier : Bounds;
  final_tier   : Bounds
}.

(** Modelled from the spec: the Problem of section 4.1, as far as the
    transcription reads it: one bound record per state, control, parameter
    and path-constraint output, so that the dimension getters are the
    lengths; whether an integral cost is present; and the flag read by the
    [Trapezoidal] constructor.  (CasOCProblem.h is where the class is
    declared; the two source files only use
    [getEnforceConstraintDerivatives].) *)
Record Problem : Type := mkProblem {
  stateInfos      : list TieredBounds;
  controlInfos    : list TieredBounds;
  parameterInfos  : list Bounds;
  pathConstraintInfos : list Bounds;
  hasIntegralCost : bool;
  getEnforceConstraintDerivatives : bool
}.

Definition getNumStates (p : Problem) : nat := length (stateInfos p).
Definition getNumControls (p : Problem) : nat := length (controlInfos p).
Definition getNumParameters (p : Problem) : nat := length (parameterInfos p).
Definition getNumPathConstraintEquations (p : Problem) : nat :=
  length (pathConstraintInfos p).

(** ** Solver (the members [Solver::solve] reads) *)

Record Solver : Type := mkSolver {
  m_problem : Problem;
  m_transcriptionScheme : string;
  m_numMeshPoints : Z            (* an [int] *)
}.

Definition getNumMeshPoints (s : Solver) : Z := m_numMeshPoints s.

(** ** Solution *)

(** Modelled from the spec: the solver status of section 3. *)
Inductive Status : Type := Converged | IterationLimit | Infeasible | Failed.

(** Modelled from the spec: the Solution of section 3 (time grid, state and
    control trajectories, parameters, objective, status); the struct itself
    is declared in CasOCProblem.h. *)
Record Solution : Type := mkSolution {
  sol_times      : list Q;
  sol_states     : list (list Q);
  sol_controls   : list (list Q);
  sol_parameters : list Q;
  sol_objective  : Q;
  sol_status     : Status
}.

(** ** Decision variables *)

(** Modelled from the spec: the classes of decision variable of section 3:
    a state or a control at a node, a parameter, the quadrature scalar. *)
Inductive VarKind : Type :=
| StateVar (node i : nat)
| ControlVar (node i : nat)
| ParameterVar (i : nat)
| QuadratureVar.

(** Modelled from the spec: a decision variable with its bound pair
    (section 3); [None] is a variable the Problem gives no bounds for. *)
Record DecisionVariable : Type := mkVar {
  var_kind   : VarKind;
  var_bounds : option Bounds
}.

(** ** Transcription (base class, declared in CasOCTranscription.h) *)

(** Modelled from the spec: the state of a Transcription (sections 3 and
    4.3): the four constructor arguments and the decision-variable set it
    owns, empty until [createVariablesAndSetBounds] has run. *)
Record Transcription : Type := mkTranscription {
  t_solver  : Solver;
  t_problem : Problem;
  t_numMeshPoints : Z;
  t_numGridPoints : Z;
  t_variables : list DecisionVariable
}.

(** What a run of [Solver::solve] does that the properties speak about:
    the base-class constructor ran (with its two counts), the
    decision-variable set was allocated, the engine's [solve] template
    method was entered (which assembles the NLP and calls the external
    solver). *)
Inductive Event : Type :=
| TranscriptionConstructed (numMeshPoints numGridPoints : Z)
| VariablesCreated (count : nat)
| TranscriptionSolveCalled.

(** Modelled from the spec: the base-class constructor
    [Transcription(solver, problem, numMeshPoints, numGridPoints)]
    (CasOCTranscription.h): section 4.3 gives it these four arguments and
    makes [createVariablesAndSetBounds] the step that allocates, so the
    constructor only records its arguments. *)
Definition Transcription_ctor (solver : Solver) (problem : Problem)
    (numMeshPoints numGridPoints : Z) : M Event Transcription :=
  emit (TranscriptionConstructed numMeshPoints numGridPoints) ;;;
  ret (mkTranscription solver problem numMeshPoints numGridPoints []).

(** Modelled from the spec: the tier that applies at a node (section 3,
    Bounds): the initial override at node 0, the final override at node N-1,
    the default elsewhere. *)
Definition tierAt (N node : nat) (b : TieredBounds) : Bounds :=
  if Nat.eqb node 0 then initial_tier b
  else if Nat.eqb (S node) N then final_tier b
  else default_tier b.

(** Pair every element with its index. *)
Definition indexed {A} (l : list A) : list (nat * A) :=
  combine (seq 0 (length l)) l.

(** Modelled from the spec: the variables of one node (section 3): its
    state vector, then its control vector. *)
Definition nodeVariables (p : Problem) (N node : nat)
    : list DecisionVariable :=
  map (fun ib => mkVar (StateVar node (fst ib)) (Some (tierAt N node (snd ib))))
      (indexed (stateInfos p))
  ++
  map (fun ib => mkVar (ControlVar node (fst ib)) (Some (tierAt N node (snd ib))))
      (indexed (controlInfos p)).

(** Modelled from the spec: the problem-wide parameter vector. *)
Definition parameterVariables (p : Problem) : list DecisionVariable :=
  map (fun ib => mkVar (ParameterVar (fst ib)) (Some (snd ib)))
      (indexed (parameterInfos p)).

(** Modelled from the spec: the scalar quadrature-accumulation variable,
    present when the problem has an integral cost. *)
Definition quadratureVariables (p : Problem) : list DecisionVariable :=
  if hasIntegralCost p then [mkVar QuadratureVar None] else [].

(** Modelled from the spec: the decision-variable set of section 3 for [N]
    mesh nodes: for each node a state vector and a control vector, then the
    parameter vector, then one scalar quadrature variable when the problem
    has an integral cost; bounds come from the Problem, the initial and
    final tiers applying to nodes 0 and N-1 only. *)
Definition allocateVariables (p : Problem) (N : nat) : list DecisionVariable :=
  flat_map (nodeVariables p N) (seq 0 N)
  ++ parameterVariables p
  ++ quadratureVariables p.

(** Modelled from the spec: [Transcription::createVariablesAndSetBounds]
    (called by the [Trapezoidal] constructor, defined in
    CasOCTranscription.cpp).  Section 4.3: the construction-time step that
    allocates the decision-variable set of section 3, one state and one
    control vector per mesh node, and assigns the bounds. *)
Definition createVariablesAndSetBounds (t : Transcription)
    : M Event Transcription :=
  let vars := allocateVariables (t_problem t) (Z.to_nat (t_numMeshPoints t)) in
  emit (VariablesCreated (length vars)) ;;;
  ret (mkTranscription (t_solver t) (t_problem t)
         (t_numMeshPoints t) (t_numGridPoints t) vars).

(** ** Trapezoidal (CasOCTrapezoidal.h) *)

(** The constructor: the base class is initialised with the solver's
    mesh-point count for both counts, then the derivative-enforcement flag
    is checked, then the variables are created. *)
Definition Trapezoidal_ctor (solver : Solver) (problem : Problem)
    : M Event Transcription :=
  base <- Transcription_ctor solver problem
            (getNumMeshPoints solver) (getNumMeshPoints solver) ;;
  OPENSIM_THROW_IF (getEnforceConstraintDerivatives problem)
    "Enforcing kinematic constraint derivatives not supported with trapezoidal transcription." ;;;
  createVariablesAndSetBounds base.

Section Solve.
(** [Transcription::solve()] is a template method of the engine
    (CasOCTranscription.cpp): it assembles the NLP, calls the external
    interior-point solver and unpacks the result.  [Solver::solve] only
    calls it, so it is a parameter here: any function from the built
    transcription to a Solution or an exception. *)
Variable transcription_solve : Transcription -> Exception + Solution.

Definition Transcription_solve (t : Transcription) : M Event Solution :=
  emit TranscriptionSolveCalled ;;;
  lift (transcription_solve t).

(** [Solver::solve] (CasOCProblem.cpp). *)
Definition Solver_solve (self : Solver) : M Event Solution :=
  transcription <-
    (if String.eqb (m_transcriptionScheme self) "trapezoidal"
     then Trapezoidal_ctor self (m_problem self)
     else OPENSIM_THROW
            (format "Unknown transcription scheme '%s'."
                    (m_transcriptionScheme self))) ;;
  Transcription_solve transcription.
End Solve.

(** ** The scheme hooks of Trapezoidal

    CasOCTrapezoidal.h declares the three overrides; their bodies are in
    CasOCTrapezoidal.cpp.  The mesh [t_0 < ... < t_{N-1}] is passed
    explicitly. *)

(** Modelled from the spec: the interval widths [h_k = t_{k+1} - t_k]
    (section 4.4). *)
Fixpoint meshIntervals (mesh : list Q) : list Q :=
  match mesh with
  | [] => []
  | t0 :: rest =>
      match rest with
      | [] => []
      | t1 :: _ => (t1 - t0) :: meshIntervals rest
      end
  end.

(** Modelled from the spec: the weight of node [k] (section 4.4,
    Quadrature weights): [h_0/2] at the first node, [h_{N-2}/2] at the last
    node, [(h_{k-1}+h_k)/2] at an interior node. *)
Definition quadratureCoefficient (mesh : list Q) (k : nat) : Q :=
  let h := meshIntervals mesh in
  let N := length mesh in
  if Nat.eqb k 0 then nth 0 h 0 / 2
  else if Nat.eqb (S k) N then nth (N - 2) h 0 / 2
  else (nth (k - 1) h 0 + nth k h 0) / 2.

(** Modelled from the spec: [Trapezoidal::createQuadratureCoefficientsImpl]
    (defined in CasOCTrapezoidal.cpp): one weight per mesh node. *)
Definition createQuadratureCoefficientsImpl (mesh : list Q) : list Q :=
  map (quadratureCoefficient mesh) (seq 0 (length mesh)).

(** The sum of a list of numbers, for [sum_k w_k]. *)
Definition sumQ (l : list Q) : Q := fold_right Qplus 0 l.

(** Vector arithmetic, componentwise (what the [MX] operators do). *)
Fixpoint vzip (op : Q -> Q -> Q) (a b : list Q) : list Q :=
  match a, b with
  | x :: a', y :: b' => op x y :: vzip op a' b'
  | _, _ => []
  end.
Definition vadd := vzip Qplus.
Definition vsub := vzip Qminus.
Definition vscale (c : Q) (a : list Q) : list Q := map (Qmult c) a.
Definition vzeros (n : nat) : list Q := repeat 0 n.

(** Modelled from the spec: the variables handed to [applyConstraintsImpl]
    (its [VariablesMX] argument), by their values: one state vector and one
    control vector per node, and the parameters (section 4.3). *)
Record VariablesMX : Type := mkVariablesMX {
  vars_states     : list (list Q);
  vars_controls   : list (list Q);
  vars_parameters : list Q
}.

(** Modelled from the spec: the two kinds of constraint of section 3. *)
Inductive ConstraintKind : Type :=
| Defect (interval : nat)
| PathConstraint (node : nat).

(** Modelled from the spec: a vector constraint of the NLP,
    [con_lower <= con_expr <= con_upper], componentwise. *)
Record Constraint : Type := mkConstraint {
  con_kind  : ConstraintKind;
  con_lower : list Q;
  con_expr  : list Q;
  con_upper : list Q
}.

(** Modelled from the spec: the defect of one interval (section 4.4):
    [x_{k+1} - x_k - (h_k/2) (xdot_k + xdot_{k+1})]. *)
Definition defectVector (h : Q) (xk xk1 fk fk1 : list Q) : list Q :=
  vsub (vsub xk1 xk) (vscale (h / 2) (vadd fk fk1)).

(** Modelled from the spec: a constraint whose every component must equal
    zero exactly (section 4.4): both bounds are the zero vector. *)
Definition equalToZero (kind : ConstraintKind) (expr : list Q) : Constraint :=
  mkConstraint kind (vzeros (length expr)) expr (vzeros (length expr)).

(** Modelled from the spec: one defect per mesh interval (section 4.4),
    numbered from [k] on. *)
Fixpoint defectConstraints (k : nat) (mesh : list Q)
    (x xdot : list (list Q)) : list Constraint :=
  match mesh with
  | [] => []
  | t0 :: mesh' =>
      match mesh', x, xdot with
      | t1 :: _, x0 :: ((x1 :: _) as x'), f0 :: ((f1 :: _) as f') =>
          equalToZero (Defect k) (defectVector (t1 - t0) x0 x1 f0 f1)
          :: defectConstraints (S k) mesh' x' f'
      | _, _, _ => []
      end
  end.

(** Modelled from the spec: one path-constraint block per node (section 3),
    within the Problem's bounds. *)
Definition pathConstraints (p : Problem) (path : list (list Q))
    : list Constraint :=
  map (fun kg => mkConstraint (PathConstraint (fst kg))
                   (map lower (pathConstraintInfos p))
                   (snd kg)
                   (map upper (pathConstraintInfos p)))
      (indexed path).

(** Modelled from the spec: [Trapezoidal::applyConstraintsImpl] (defined in
    CasOCTrapezoidal.cpp).  Sections 3 and 4.4: the defects of all
    intervals first, then the path constraints grouped by node, enforced at
    every node; the scheme adds no constraint-derivative term, so the
    residual and the kinematic-constraint error of the signature feed no
    constraint. *)
Definition applyConstraintsImpl (self : Transcription) (mesh : list Q)
    (vars : VariablesMX) (xdot residual kcerr path : list (list Q))
    : list Constraint :=
  defectConstraints 0 mesh (vars_states vars) xdot
  ++ pathConstraints (t_problem self) path.

(** Whether a constraint is a defect constraint. *)
Definition isDefect (c : Constraint) : bool :=
  match con_kind c with Defect _ => true | PathConstraint _ => false end.

(** The number of scalar equations in a list of vector constraints. *)
Definition numEquations (cs : list Constraint) : nat :=
  fold_right (fun c n => (length (con_expr c) + n)%nat) 0%nat cs.

End CasOC.

(* ================================================================== *)
(** * CasOC: the NLP a Transcription assembles                         *)
(* ================================================================== *)

Module CasOCTranscription.
Import OpenSim.
Import CasOC.

(** Modelled from the spec: the evaluators of the Problem (sections 4.1 and
    6): the dynamics [f(t,x,u,p)], the path constraints [g(t,x,u,p)], the
    integral-cost integrand [L(t,x,u,p)] and the endpoint cost
    [(t_f, x_f, p)]; pure functions of their arguments.  The class that
    holds them is declared in CasOCProblem.h. *)
Record Evaluators : Type := mkEvaluators {
  ev_dynamics : Q -> list Q -> list Q -> list Q -> list Q;
  ev_pathConstraints : Q -> list Q -> list Q -> list Q -> list Q;
  ev_integralCostIntegrand : Q -> list Q -> list Q -> list Q -> Q;
  ev_endpointCost : Q -> list Q -> list Q -> Q
}.

(** Modelled from the spec: which decision variables make up the state
    vector of a node, its control vector, and the parameter vector
    (section 3). *)
Definition isStateOf (node : nat) (kind : VarKind) : bool :=
  match kind with StateVar n _ => Nat.eqb n node | _ => false end.

Definition isControlOf (node : nat) (kind : VarKind) : bool :=
  match kind with ControlVar n _ => Nat.eqb n node | _ => false end.

Definition isParameter (kind : VarKind) : bool :=
  match kind with ParameterVar _ => true | _ => false end.

(** Modelled from the spec: the entries of the decision vector [z] that
    belong to the selected variables of the variable set, in the order of
    the set. *)
Definition valuesOf (select : VarKind -> bool)
    (variables : list DecisionVariable) (z : list Q) : list Q :=
  map snd (filter (fun vq => select (var_kind (fst vq)))
                  (combine variables z)).

(** Modelled from the spec: the decision vector read as the variables of
    the transcription (sections 3 and 4.3): the state and the control vector
    of each of the [N] nodes and the parameter vector, each entry found
    through the variable set that [createVariablesAndSetBounds] built. *)
Definition unpackVariables (variables : list DecisionVariable) (N : nat)
    (z : list Q) : VariablesMX :=
  mkVariablesMX
    (map (fun node => valuesOf (isStateOf node) variables z) (seq 0 N))
    (map (fun node => valuesOf (isControlOf node) variables z) (seq 0 N))
    (valuesOf isParameter variables z).

(** Modelled from the spec: the exception for an evaluator that returns a
    vector of unexpected size (section 7, DimensionMismatchError). *)
Definition DimensionMismatchError : Exception :=
  mkException "DimensionMismatchError".

(** Modelled from the spec: the size check made on what an evaluator
    returns (section 7). *)
Definition checkDimension (expected : nat) (v : list Q)
    : Exception + list Q :=
  if Nat.eqb (length v) expected then inr v else inl DimensionMismatchError.

(** Modelled from the spec: the evaluators called at each node, from node
    [k] on (sections 4.1 and 4.3): the dynamics derivative and the
    path-constraint values of the node, each checked for its size; the first
    mismatch is thrown. *)
Fixpoint evaluateNodes (ev : Evaluators) (p : Problem) (mesh params : list Q)
    (k : nat) (nodes : list (list Q * list Q))
    : Exception + list (list Q * list Q) :=
  match nodes with
  | [] => inr []
  | (x, u) :: rest =>
      let t := nth k mesh 0 in
      match checkDimension (getNumStates p) (ev_dynamics ev t x u params) with
      | inl e => inl e
      | inr xdot =>
          match checkDimension (getNumPathConstraintEquations p)
                  (ev_pathConstraints ev t x u params) with
          | inl e => inl e
          | inr g =>
              match evaluateNodes ev p mesh params (S k) rest with
              | inl e => inl e
              | inr values => inr ((xdot, g) :: values)
              end
          end
      end
  end.

(** The number of nodes of a transcription. *)
Definition numNodes (t : Transcription) : nat := Z.to_nat (t_numMeshPoints t).

(** Modelled from the spec: the constraints of the NLP at a decision vector
    (section 4.3, [solve]): the variables are read from the vector, the
    evaluators are called at every node, and the scheme's
    [applyConstraints] hook emits the constraints. *)
Definition constraintsAt (ev : Evaluators) (mesh : list Q) (t : Transcription)
    (z : list Q) : Exception + list Constraint :=
  let vars := unpackVariables (t_variables t) (numNodes t) z in
  match evaluateNodes ev (t_problem t) mesh (vars_parameters vars) 0
          (combine (vars_states vars) (vars_controls vars)) with
  | inl e => inl e
  | inr values =>
      inr (applyConstraintsImpl t mesh vars (map fst values) [] []
             (map snd values))
  end.

(** Modelled from the spec: the objective of the NLP at a decision vector
    (section 4.3): the endpoint cost plus, when the problem has an integral
    cost, the quadrature sum [sum_k w_k L(t_k, x_k, u_k, p)]. *)
Definition objectiveAt (ev : Evaluators) (mesh : list Q) (t : Transcription)
    (z : list Q) : Q :=
  let N := numNodes t in
  let vars := unpackVariables (t_variables t) N z in
  let w := createQuadratureCoefficientsImpl mesh in
  ev_endpointCost ev (nth (N - 1) mesh 0)
    (nth (N - 1) (vars_states vars) []) (vars_parameters vars)
  + (if hasIntegralCost (t_problem t)
     then sumQ (map (fun k =>
                       nth k w 0
                       * ev_integralCostIntegrand ev (nth k mesh 0)
                           (nth k (vars_states vars) [])
                           (nth k (vars_controls vars) [])
                           (vars_parameters vars))
                    (seq 0 N))
     else 0).

(** Modelled from the spec: the NLP (glossary): the decision variables with
    their bounds, the constraints and the objective as functions of the
    decision vector. *)
Record NLP : Type := mkNLP {
  nlp_variables   : list DecisionVariable;
  nlp_constraints : list Q -> Exception + list Constraint;
  nlp_objective   : list Q -> Q
}.

(** Modelled from the spec: the NLP that a Transcription assembles in
    [solve] (section 4.3), on a mesh: the variables and bounds as built by
    [createVariablesAndSetBounds], the constraints and the objective. *)
Definition buildNLP (ev : Evaluators) (mesh : list Q) (t : Transcription)
    : NLP :=
  mkNLP (t_variables t) (constraintsAt ev mesh t) (objectiveAt ev mesh t).

End CasOCTranscription.

(* ================================================================== *)
(** * Moco: MocoOrientationTrackingCost                                *)
(* ================================================================== *)

Module Moco.
Import OpenSim.

Definition double : Type := float.

(** [SimTK::Rotation]: a 3x3 matrix of doubles, row by row. *)
Definition Vec3 : Type := (double * double * double)%type.
Definition Rotation : Type := (Vec3 * Vec3 * Vec3)%type.

(** [TimeSeriesTable_<ETY>] (declared in OpenSim/Common/TimeSeriesTable.h,
    which the header includes): column labels, the independent (time)
    column and one row of [ETY] per time.  The setters only copy and
    default-construct tables. *)
Record TimeSeriesTable_ (ETY : Type) : Type := mkTable {
  getColumnLabels      : list string;
  getIndependentColumn : list double;
  getMatrix            : list (list ETY)
}.

Definition TimeSeriesTable : Type := TimeSeriesTable_ double.

(** The default constructor: no columns, no rows. *)
Definition emptyTable (ETY : Type) : TimeSeriesTable_ ETY :=
  mkTable [] [] [].

Definition getNumRows {ETY} (t : TimeSeriesTable_ ETY) : nat :=
  length (getIndependentColumn t).
Definition getNumColumns {ETY} (t : TimeSeriesTable_ ETY) : nat :=
  length (getColumnLabels t).

Definition tableIsEmpty {ETY} (t : TimeSeriesTable_ ETY) : bool :=
  Nat.eqb (getNumRows t) 0 && Nat.eqb (getNumColumns t) 0
  && Nat.eqb (length (getMatrix t)) 0.

(** [MocoWeight] (declared in MocoWeightSet.h, which the header includes):
    a named weight, built by [{frameName, weight}] and changed by
    [setWeight]. *)
Record MocoWeight : Type := mkWeight {
  getName   : string;
  getWeight : double
}.

Definition MocoWeight_setWeight (w : MocoWeight) (weight : double)
    : MocoWeight :=
  mkWeight (getName w) weight.

(** [MocoWeightSet] is an [OpenSim::Set<MocoWeight>] (declared in
    MocoWeightSet.h and OpenSim/Common/Set.h): an ordered array of objects,
    looked up by name, first match first.  The three operations that
    [setWeight] calls are given that meaning here. *)
Definition MocoWeightSet : Type := list MocoWeight.

(** [ArrayPtrs::getIndex(name)]: index of the first object of that name. *)
Fixpoint getIndex (ws : MocoWeightSet) (name : string) : option nat :=
  match ws with
  | [] => None
  | w :: ws' =>
      if String.eqb (getName w) name then Some 0%nat
      else option_map S (getIndex ws' name)
  end.

(** [Set::contains(name)]. *)
Definition contains (ws : MocoWeightSet) (name : string) : bool :=
  match getIndex ws name with Some _ => true | None => false end.

(** [Set::get(name)]: a reference to the first object of that name, here
    its position; throws when there is none. *)
Definition get (ws : MocoWeightSet) (name : string) : Exception + nat :=
  match getIndex ws name with
  | Some i => inr i
  | None => inl (mkException ("no object with name " ++ name))
  end.

(** Apply a mutator through a reference obtained from [get]. *)
Fixpoint updAt (ws : MocoWeightSet) (i : nat)
    (f : MocoWeight -> MocoWeight) : MocoWeightSet :=
  match ws, i with
  | [], _ => []
  | w :: ws', O => f w :: ws'
  | w :: ws', S i' => w :: updAt ws' i' f
  end.

(** [Set::cloneAndAppend(obj)]. *)
Definition cloneAndAppend (ws : MocoWeightSet) (w : MocoWeight)
    : MocoWeightSet :=
  ws ++ [w].

(** The object: the [MocoCost] base (name, weight), the three properties
    and the two reference tables.  The [mutable] caches filled by
    [initializeOnModelImpl] are not touched by any setter and are left
    out. *)
Record MocoOrientationTrackingCost : Type := mkCost {
  cost_name        : string;
  cost_weight      : double;
  reference_file   : string;
  frame_paths      : list string;
  rotation_weights : MocoWeightSet;
  m_states_table   : TimeSeriesTable;
  m_rotation_table : TimeSeriesTable_ Rotation
}.

(** [MocoOrientationTrackingCost(name, weight)] followed by
    [constructProperties()]. *)
Definition MocoOrientationTrackingCost_ctor (name : string) (weight : double)
    : MocoOrientationTrackingCost :=
  mkCost name weight "" [] [] (emptyTable double) (emptyTable Rotation).

Definition set_reference_file (c : MocoOrientationTrackingCost)
    (v : string) : MocoOrientationTrackingCost :=
  mkCost (cost_name c) (cost_weight c) v (frame_paths c)
         (rotation_weights c) (m_states_table c) (m_rotation_table c).

Definition set_states_table (c : MocoOrientationTrackingCost)
    (t : TimeSeriesTable) : MocoOrientationTrackingCost :=
  mkCost (cost_name c) (cost_weight c) (reference_file c) (frame_paths c)
         (rotation_weights c) t (m_rotation_table c).

Definition set_rotation_table (c : MocoOrientationTrackingCost)
    (t : TimeSeriesTable_ Rotation) : MocoOrientationTrackingCost :=
  mkCost (cost_name c) (cost_weight c) (reference_file c) (frame_paths c)
         (rotation_weights c) (m_states_table c) t.

Definition set_rotation_weights (c : MocoOrientationTrackingCost)
    (ws : MocoWeightSet) : MocoOrientationTrackingCost :=
  mkCost (cost_name c) (cost_weight c) (reference_file c) (frame_paths c)
         ws (m_states_table c) (m_rotation_table c).

Definition set_frame_paths (c : MocoOrientationTrackingCost)
    (ps : list string) : MocoOrientationTrackingCost :=
  mkCost (cost_name c) (cost_weight c) (reference_file c) ps
         (rotation_weights c) (m_states_table c) (m_rotation_table c).

(** The statements of each setter, in the order the source has them. *)
Definition setStatesReferenceFile (c : MocoOrientationTrackingCost)
    (filepath : string) : MocoOrientationTrackingCost :=
  let c1 := set_states_table c (emptyTable double) in
  let c2 := set_rotation_table c1 (emptyTable Rotation) in
  set_reference_file c2 filepath.

Definition setStatesReference (c : MocoOrientationTrackingCost)
    (ref : TimeSeriesTable) : MocoOrientationTrackingCost :=
  let c1 := set_reference_file c "" in
  let c2 := set_rotation_table c1 (emptyTable Rotation) in
  set_states_table c2 ref.

Definition setRotationReference (c : MocoOrientationTrackingCost)
    (ref : TimeSeriesTable_ Rotation) : MocoOrientationTrackingCost :=
  let c1 := set_states_table c (emptyTable double) in
  let c2 := set_reference_file c1 "" in
  set_rotation_table c2 ref.

(** [setFramePaths]: clear the list property, then append each path. *)
Definition setFramePaths (c : MocoOrientationTrackingCost)
    (paths : list string) : MocoOrientationTrackingCost :=
  fold_left (fun c' path => set_frame_paths c' (frame_paths c' ++ [path]))
            paths (set_frame_paths c []).

(** [setWeight]: replace through [get] when the name is present, append a
    new entry otherwise.  [get] is the only call that can throw. *)
Definition setWeight (c : MocoOrientationTrackingCost)
    (frameName : string) (weight : double)
    : Exception + MocoOrientationTrackingCost :=
  if contains (rotation_weights c) frameName then
    match get (rotation_weights c) frameName with
    | inl e => inl e
    | inr ref =>
        inr (set_rotation_weights c
               (updAt (rotation_weights c) ref
                      (fun w => MocoWeight_setWeight w weight)))
    end
  else
    inr (set_rotation_weights c
           (cloneAndAppend (rotation_weights c) (mkWeight frameName weight))).

Definition setWeightSet (c : MocoOrientationTrackingCost)
    (weightSet : MocoWeightSet) : MocoOrientationTrackingCost :=
  set_rotation_weights c weightSet.

Definition getReferenceFile (c : MocoOrientationTrackingCost) : string :=
  reference_file c.

(** How many of the three reference sources hold something. *)
Definition numReferenceSources (c : MocoOrientationTrackingCost) : nat :=
  (if String.eqb (reference_file c) "" then 0 else 1)
  + (if tableIsEmpty (m_states_table c) then 0 else 1)
  + (if tableIsEmpty (m_rotation_table c) then 0 else 1).

(** The weight that a lookup by name finds. *)
Definition weightOf (ws : MocoWeightSet) (name : string) : option double :=
  match getIndex ws name with
  | Some i => option_map getWeight (nth_error ws i)
  | None => None
  end.

End Moco.

(* ================================================================== *)
(** * SimulationUtilities: the [simulate] driver                       *)
(* ================================================================== *)

Module SimulationUtilities.

Definition double : Type := float.

(** [SimTK::State] (Simbody), as far as [simulate] looks into it: the time
    and the rest of the state, carried as the vector of state variables. *)
Record State : Type := mkState {
  getTime : double;
  getY    : list double
}.

Definition setTime (s : State) (t : double) : State := mkState t (getY s).

(** [OpenSim::Model] (Model/Model.h), as far as [simulate] reads it.  Its
    visualizer and input silo are driven through the calls recorded as
    events. *)
Record Model : Type := mkModel {
  getName          : string;
  getUseVisualizer : bool
}.

(** [SimTK::Visualizer::InputListener::KeyEsc]. *)
Definition KeyEsc : Z := 27.

(** The calls [simulate] makes on its collaborators, in order. *)
Inductive Event : Type :=
| CoutSimulationAborted (currentTime : double)
| VizAddDecoration (text : string)
| VizSetShowSimTime (show : bool)
| VizDrawFrameNow (s : State)
| CoutVisualizerOpened
| SiloClear
| SiloWaitForKeyHit (key : Z)
| ManagerInitialize (s : State)
| ManagerIntegrate (finalTime : double)
| StoragePrint (fileName : string).

(** The objects the body of [simulate] can name: the caller's state behind
    the [const SimTK::State&], the local copy [state] and the local flag
    [simulateOnce]. *)
Record Frame : Type := mkFrame {
  initialState : State;
  state        : State;
  simulateOnce : bool
}.

Definition set_state (fr : Frame) (s : State) : Frame :=
  mkFrame (initialState fr) s (simulateOnce fr).
Definition set_simulateOnce (fr : Frame) (b : bool) : Frame :=
  mkFrame (initialState fr) (state fr) b.

(** How a call ends: it returns a state, or an exception of the Manager
    leaves it, or it waits for a key press that never comes, or the loop
    budget of the model ran out. *)
Inductive Outcome : Type :=
| Returned (s : State)
| Threw (e : OpenSim.Exception)
| WaitingForKey
| OutOfFuel.

Record Result : Type := mkResult {
  outcome : Outcome;
  frame   : Frame;
  events  : list Event
}.

Section Simulate.
(** [Manager::integrate(finalTime)] after [Manager::initialize(state)]
    (Manager.h): the state the integrator reaches from [state], or the
    exception it throws.  A parameter: the integrator is not part of this
    file. *)
Variable integrate : Model -> State -> double -> OpenSim.Exception + State.

Variable model : Model.
Variable finalTime : double.
Variable saveStatesFile : bool.
Variable initialTime : double.

(** The part of the loop body after the key check; [Some e] when the
    integrator threw [e]. *)
Definition simulateBody (fr : Frame) (log : list Event)
    : option OpenSim.Exception * Frame * list Event :=
  (* state = initialState; *)
  let fr1 := set_state fr (initialState fr) in
  (* state.setTime(initialTime); manager.initialize(state); *)
  let fr2 := set_state fr1 (setTime (state fr1) initialTime) in
  let log1 := log ++ [ManagerInitialize (state fr2)] in
  (* state = manager.integrate(finalTime); *)
  let log2 := log1 ++ [ManagerIntegrate finalTime] in
  match integrate model (state fr2) finalTime with
  | inl e => (Some e, fr2, log2)
  | inr reached =>
      let fr3 := set_state fr2 reached in
      let log3 :=
        if saveStatesFile
        then log2 ++ [StoragePrint (getName model ++ "_states.sto")]
        else log2 in
      (None, fr3, log3)
  end.

(** [do { ... } while (!simulateOnce);] with the key presses the user
    will make. *)
Fixpoint simulateLoop (fuel : nat) (keys : list Z) (fr : Frame)
    (log : list Event) : Result :=
  match fuel with
  | O => mkResult OutOfFuel fr log
  | S fuel' =>
      let continue (keys' : list Z) (log' : list Event) : Result :=
        match simulateBody fr log' with
        | (Some e, fr', log'') => mkResult (Threw e) fr' log''
        | (None, fr', log'') =>
            if negb (simulateOnce fr')
            then simulateLoop fuel' keys' fr' log''
            else mkResult (Returned (state fr')) fr' log''
        end in
      if getUseVisualizer model then
        match keys with
        | [] => mkResult WaitingForKey fr (log ++ [SiloClear])
        | key :: keys' =>
            let log' := log ++ [SiloClear; SiloWaitForKeyHit key] in
            if Z.eqb key KeyEsc
            then mkResult (Returned (state fr)) fr log'
            else continue keys' log'
        end
      else continue keys log
  end.
End Simulate.

(** [simulate(model, initialState, finalTime, saveStatesFile)]. *)
Definition simulate
    (integrate : Model -> State -> double -> OpenSim.Exception + State)
    (fuel : nat) (keys : list Z)
    (model : Model) (initialState0 : State) (finalTime : double)
    (saveStatesFile : bool) : Result :=
  (* SimTK::State state = initialState;  bool simulateOnce = true; *)
  let fr := mkFrame initialState0 initialState0 true in
  let initialTime := getTime (initialState fr) in
  if PrimFloat.leb finalTime initialTime then
    mkResult (Returned (state fr)) fr [CoutSimulationAborted initialTime]
  else
    let (fr1, log1) :=
      if getUseVisualizer model then
        (set_simulateOnce fr false,
         [VizAddDecoration "Press any key to start a new simulation; ESC to quit.";
          VizSetShowSimTime true;
          VizDrawFrameNow (state fr);
          CoutVisualizerOpened])
      else (fr, []) in
    simulateLoop integrate model finalTime saveStatesFile initialTime
                 fuel keys fr1 log1.

(** Whether a log records any work of the Manager. *)
Definition isManagerEvent (e : Event) : bool :=
  match e with
  | ManagerInitialize _ | ManagerIntegrate _ | StoragePrint _ => true
  | _ => false
  end.

End SimulationUtilities.

(* ================================================================== *)
(** * SimulationUtilities: upgrading pre-4.0 kinematics                *)
(* ================================================================== *)

Module Pre40Kinematics.

Definition double : Type := float.

(** [Coordinate::MotionType]. *)
Inductive MotionType : Type := Undefined | Rotational | Translational | Coupled.

Definition MotionType_eqb (a b : MotionType) : bool :=
  match a, b with
  | Undefined, Undefined | Rotational, Rotational
  | Translational, Translational | Coupled, Coupled => true
  | _, _ => false
  end.

(** [OpenSim::Coordinate], as far as the upgrade reads it. *)
Record Coordinate : Type := mkCoordinate {
  coord_getName : string;
  getUserSpecifiedMotionTypePriorTo40 : MotionType;
  getMotionType : MotionType
}.

(** [OpenSim::Model], as far as the upgrade reads it; [getCoordinates] is
    [getComponentList<Coordinate>()], in its iteration order. *)
Record Model : Type := mkModel {
  model_getName : string;
  getDocumentFileVersion : Z;     (* an [int] *)
  getCoordinates : list Coordinate
}.

(** One row of a [Storage]: a time and the values of the states. *)
Record StateVector : Type := mkStateVector {
  sv_time : double;
  sv_data : list double
}.

(** [OpenSim::Storage] (Common/Storage.h), as far as the upgrade uses it:
    its name, the [inDegrees] header flag, the labels of the state columns
    and the rows. *)
Record Storage : Type := mkStorage {
  storage_getName : string;
  isInDegrees : bool;
  getColumnLabels : list string;
  getRows : list StateVector
}.

(** Multiply entry [ix] of a row, when the row has one. *)
Fixpoint scaleEntry (data : list double) (ix : nat) (factor : double)
    : list double :=
  match data, ix with
  | [], _ => []
  | v :: rest, O => PrimFloat.mul v factor :: rest
  | v :: rest, S ix' => v :: scaleEntry rest ix' factor
  end.

(** [Storage::multiplyColumn(ix, factor)]: state [ix] of every row is
    multiplied by [factor]. *)
Definition multiplyColumn (s : Storage) (ix : Z) (factor : double) : Storage :=
  mkStorage (storage_getName s) (isInDegrees s) (getColumnLabels s)
    (map (fun row => mkStateVector (sv_time row)
                       (scaleEntry (sv_data row) (Z.to_nat ix) factor))
         (getRows s)).

(** What is written to [std::cout] and to disk. *)
Inductive Event : Type :=
| CoutNotInMotion (motionName coordinateName : string)
| CoutWritingConverted (filePath outFilePath : string)
| StoragePrint (outFilePath : string) (contents : Storage).

(** What the upgrade of one storage hands back: the [return;] of its first
    statement names no value; the other [return]s give a pointer, null or
    not. *)
Inductive Returned : Type :=
| ReturnWithoutValue
| ReturnPointer (p : option Storage).

Definition newline : string := String (ascii_of_nat 10) EmptyString.

(** The message of the exception thrown for an up-to-date model. *)
Definition upToDateMessage (modelName : string) : string :=
  ("updateKinematicsStorageForUpdatedModel has no updates "
   ++ "to make because the model '" ++ modelName ++ "'is up-to-date." ++ newline
   ++ "If input motion files were generated with this model version, "
   ++ "nothing further must be done. Otherwise, provide the original model "
   ++ "file used to generate the motion files and try again.")%string.

(** The test of the first loop: the motion type given by the user before 4.0
    is defined and differs from the one the joint now gives. *)
Definition isInconsistent (coord : Coordinate) : bool :=
  negb (MotionType_eqb (getUserSpecifiedMotionTypePriorTo40 coord) Undefined)
  && negb (MotionType_eqb (getUserSpecifiedMotionTypePriorTo40 coord)
                          (getMotionType coord)).

(** [problemCoords] after the first loop. *)
Definition problemCoords (pre40Model : Model) : list Coordinate :=
  filter isInconsistent (getCoordinates pre40Model).

Section Upgrade.
(** [Storage::getStateIndex(name)] (Storage.cpp), seen as a search of the
    column labels: the index of the state column, negative when there is
    none.  A parameter. *)
Variable findStateIndex : list string -> string -> Z.

(** [SimTK_DTR], the degrees-to-radians factor (SimTKcommon).  A
    parameter. *)
Variable SimTK_DTR : double.

Definition getStateIndex (s : Storage) (name : string) : Z :=
  findStateIndex (getColumnLabels s) name.

(** The body of the second loop, for one inconsistent coordinate. *)
Definition convertCoordinate (motionName : string)
    (acc : Storage * list Event) (coord : Coordinate)
    : Storage * list Event :=
  let (updatedKinematics, log) := acc in
  let ix := getStateIndex updatedKinematics (coord_getName coord) in
  if (ix <? 0)%Z
  then (updatedKinematics,
        log ++ [CoutNotInMotion motionName (coord_getName coord)])
  else (multiplyColumn updatedKinematics ix SimTK_DTR, log).

(** [updatePre40KinematicsStorageFor40MotionType(pre40Model, kinematics)]:
    the exception thrown or what is returned, and what was printed. *)
Definition updatePre40KinematicsStorageFor40MotionType
    (pre40Model : Model) (kinematics : Storage)
    : (OpenSim.Exception + Returned) * list Event :=
  if negb (isInDegrees kinematics) then (inr ReturnWithoutValue, [])
  else if (30415 <=? getDocumentFileVersion pre40Model)%Z then
    (inl (OpenSim.mkException (upToDateMessage (model_getName pre40Model))), [])
  else
    let problem := problemCoords pre40Model in
    if Nat.eqb (length problem) 0 then (inr (ReturnPointer None), [])
    else
      (* updatedKinematics(kinematics.clone()) *)
      let (updatedKinematics, log) :=
        fold_left (convertCoordinate (storage_getName kinematics))
                  problem (kinematics, []) in
      (inr (ReturnPointer (Some updatedKinematics)), log).

(** ** The file driver *)

(** [std::string::npos]. *)
Definition npos : Z := 18446744073709551615.

(** [s.rfind(c)]: the position of the last [c], [npos] when there is none. *)
Fixpoint rfind (c : ascii) (s : string) : Z :=
  match s with
  | EmptyString => npos
  | String a rest =>
      let r := rfind c rest in
      if (r =? npos)%Z
      then (if Ascii.eqb a c then 0%Z else npos)
      else (r + 1)%Z
  end.

Fixpoint string_drop (n : nat) (s : string) : string :=
  match n, s with
  | O, _ => s
  | S n', EmptyString => EmptyString
  | S n', String _ rest => string_drop n' rest
  end.

Fixpoint string_take (n : nat) (s : string) : string :=
  match n, s with
  | O, _ => EmptyString
  | S n', EmptyString => EmptyString
  | S n', String a rest => String a (string_take n' rest)
  end.

(** What can leave the driver: an [OpenSim::Exception] or the
    [std::out_of_range] of [substr]. *)
Inductive Thrown : Type :=
| OpenSimException (e : OpenSim.Exception)
| StdOutOfRange.

(** [s.substr(pos, count)]: throws when [pos > size()], else the at most
    [count] characters from [pos] on. *)
Definition substr (s : string) (pos count : Z) : Thrown + string :=
  let size := Z.of_nat (String.length s) in
  if (size <? pos)%Z then inl StdOutOfRange
  else inr (string_take (Z.to_nat (Z.min count (size - pos)))
              (string_drop (Z.to_nat pos) s)).

(** The computation of [outFilePath] in the loop body. *)
Definition outFilePath (filePath suffix : string) : Thrown + string :=
  if Nat.eqb (String.length suffix) 0 then inr filePath
  else
    let back := rfind "." filePath in
    match substr filePath 0 back, substr filePath back npos with
    | inr stem, inr extension => inr (stem ++ suffix ++ extension)%string
    | inl t, _ => inl t
    | _, inl t => inl t
    end.

(** How a call of the driver ends: all files done, an exception, or the
    comparison of a pointer that [return;] never produced. *)
Inductive Outcome : Type :=
| Completed
| Threw (t : Thrown)
| NoValueToCompare.

(** [Storage motion(filePath)]: the storage read from the file, or the
    exception of the constructor.  A parameter. *)
Variable readStorage : string -> OpenSim.Exception + Storage.

(** [updatePre40KinematicsFilesFor40MotionType(model, filePaths, suffix)]. *)
Fixpoint updatePre40KinematicsFilesFor40MotionType (model : Model)
    (filePaths : list string) (suffix : string) (log : list Event)
    : Outcome * list Event :=
  match filePaths with
  | [] => (Completed, log)
  | filePath :: rest =>
      match readStorage filePath with
      | inl e => (Threw (OpenSimException e), log)
      | inr motion =>
          match updatePre40KinematicsStorageFor40MotionType model motion with
          | (inl e, printed) => (Threw (OpenSimException e), log ++ printed)
          | (inr ReturnWithoutValue, printed) =>
              (NoValueToCompare, log ++ printed)
          | (inr (ReturnPointer None), printed) =>
              (* continue *)
              updatePre40KinematicsFilesFor40MotionType model rest suffix
                (log ++ printed)
          | (inr (ReturnPointer (Some updatedMotion)), printed) =>
              match outFilePath filePath suffix with
              | inl t => (Threw t, log ++ printed)
              | inr out =>
                  updatePre40KinematicsFilesFor40MotionType model rest suffix
                    (log ++ printed
                         ++ [CoutWritingConverted filePath out;
                             StoragePrint out updatedMotion])
              end
          end
      end
  end.
End Upgrade.

End Pre40Kinematics.

(* ================================================================== *)
(** * Auxiliary definitions used by the statements                     *)
(* ================================================================== *)

Import OpenSim.
Local Open Scope eff_scope.
Unset Implicit Arguments.

(** The message of the exception thrown by the [Trapezoidal] constructor. *)
Definition derivativesMessage : string :=
  "Enforcing kinematic constraint derivatives not supported with trapezoidal transcription.".

(** Delegation, for one solver: the matching Transcription is constructed,
    the engine's [solve] is called on it, and what that call yields is what
    [Solver::solve] yields. *)
Definition solve_delegates
    (tsolve : CasOC.Transcription -> Exception + CasOC.Solution)
    (solver : CasOC.Solver) : Prop :=
  exists t log,
    run (CasOC.Trapezoidal_ctor solver (CasOC.m_problem solver)) = (inr t, log)
    /\ run (CasOC.Solver_solve tsolve solver)
       = (tsolve t, log ++ [CasOC.TranscriptionSolveCalled]).

(** Node data of the right shape: one vector of [n] entries for each of the
    [N] nodes. *)
Definition nodeData (N n : nat) (v : list (list Q)) : Prop :=
  length v = N /\ forall k, (k < N)%nat -> length (nth k v []) = n.

(** The trapezoidal weights computed interval by interval: every interval
    gives half of its width to each of its two end nodes.  [prev] is what the
    interval on the left has already given to the current node.  Used to sum
    the weights. *)
Fixpoint halfWidthSums (prev : Q) (h : list Q) : list Q :=
  match h with
  | [] => [prev]
  | hk :: rest => (prev + hk / 2) :: halfWidthSums (hk / 2) rest
  end.

(** Sample data used to instantiate the statements: a problem with two
    states, two controls, one path constraint and an integral cost, with and
    without derivative enforcement, on a mesh of four nodes. *)
Definition unitBounds : CasOC.Bounds := CasOC.mkBounds (-(10)) 10.

Definition unitTiers : CasOC.TieredBounds :=
  CasOC.mkTiered unitBounds (CasOC.mkBounds 0 0) unitBounds.

Definition pendulumProblem (enforce : bool) : CasOC.Problem :=
  CasOC.mkProblem [unitTiers; unitTiers] [unitTiers; unitTiers]
                  [] [unitBounds] true enforce.

Definition pendulumSolver (scheme : string) (enforce : bool) : CasOC.Solver :=
  CasOC.mkSolver (pendulumProblem enforce) scheme 50.

Definition zeroSolution : CasOC.Solution :=
  CasOC.mkSolution [] [] [] [] 0 CasOC.Converged.

Definition constantSolve (t : CasOC.Transcription)
    : Exception + CasOC.Solution := inr zeroSolution.

Definition sampleMesh : list Q := [0; 1 # 4; 1 # 2; 1].

Definition sampleStates : list (list Q) :=
  [[0; 0]; [1 # 4; 1]; [1 # 2; 1]; [1; 1]].

Definition sampleXdot : list (list Q) := [[1; 0]; [1; 0]; [1; 0]; [1; 0]].

Definition samplePath : list (list Q) := [[0]; [1 # 4]; [1 # 2]; [1]].

Definition sampleVars : CasOC.VariablesMX :=
  CasOC.mkVariablesMX sampleStates [[0; 0]; [0; 0]; [0; 0]; [0; 0]] [].

Definition sampleTranscription : CasOC.Transcription :=
  CasOC.mkTranscription (pendulumSolver "trapezoidal" false)
    (pendulumProblem false) 4 4 [].

Definition sampleCost : Moco.MocoOrientationTrackingCost :=
  Moco.mkCost "tracking" 1%float "states.sto" ["/bodyset/torso"%string]
    [Moco.mkWeight "torso" 1%float; Moco.mkWeight "pelvis" 2%float]
    (Moco.mkTable ["/jointset/j0/q0/value"%string] [0%float] [[0%float]])
    (Moco.emptyTable Moco.Rotation).

Definition restState : SimulationUtilities.State :=
  SimulationUtilities.mkState 1%float [0%float; 0%float].

Definition plainModel : SimulationUtilities.Model :=
  SimulationUtilities.mkModel "dp" false.

Definition holdIntegrate (m : SimulationUtilities.Model)
    (s : SimulationUtilities.State) (tf : SimulationUtilities.double)
    : Exception + SimulationUtilities.State :=
  inr (SimulationUtilities.setTime s tf).

(** ** Calls on a cost, one after the other *)

(** A call of one of the public mutators of [MocoOrientationTrackingCost]. *)
Inductive MocoCall : Type :=
| CallSetStatesReferenceFile (filepath : string)
| CallSetStatesReference (ref : Moco.TimeSeriesTable)
| CallSetRotationReference (ref : Moco.TimeSeriesTable_ Moco.Rotation)
| CallSetFramePaths (paths : list string)
| CallSetWeight (frameName : string) (weight : Moco.double)
| CallSetWeightSet (weightSet : Moco.MocoWeightSet).

(** Make one call on the object. *)
Definition applyCall (c : Moco.MocoOrientationTrackingCost) (call : MocoCall)
    : Exception + Moco.MocoOrientationTrackingCost :=
  match call with
  | CallSetStatesReferenceFile filepath =>
      inr (Moco.setStatesReferenceFile c filepath)
  | CallSetStatesReference ref => inr (Moco.setStatesReference c ref)
  | CallSetRotationReference ref => inr (Moco.setRotationReference c ref)
  | CallSetFramePaths paths => inr (Moco.setFramePaths c paths)
  | CallSetWeight frameName weight => Moco.setWeight c frameName weight
  | CallSetWeightSet weightSet => inr (Moco.setWeightSet c weightSet)
  end.

(** Make the calls one after the other; an exception ends the sequence. *)
Fixpoint applyCalls (c : Moco.MocoOrientationTrackingCost)
    (calls : list MocoCall)
    : Exception + Moco.MocoOrientationTrackingCost :=
  match calls with
  | [] => inr c
  | call :: rest =>
      match applyCall c call with
      | inl e => inl e
      | inr c' => applyCalls c' rest
      end
  end.

(** The three reference sources of a cost. *)
Definition referenceSources (c : Moco.MocoOrientationTrackingCost)
    : string * Moco.TimeSeriesTable * Moco.TimeSeriesTable_ Moco.Rotation :=
  (Moco.reference_file c, Moco.m_states_table c, Moco.m_rotation_table c).

(** The sources that the last reference setter of a sequence of calls
    leaves, starting from [sources]. *)
Fixpoint sourcesAfter
    (sources : string * Moco.TimeSeriesTable * Moco.TimeSeriesTable_ Moco.Rotation)
    (calls : list MocoCall)
    : string * Moco.TimeSeriesTable * Moco.TimeSeriesTable_ Moco.Rotation :=
  match calls with
  | [] => sources
  | CallSetStatesReferenceFile filepath :: rest =>
      sourcesAfter (filepath, Moco.emptyTable Moco.double,
                    Moco.emptyTable Moco.Rotation) rest
  | CallSetStatesReference ref :: rest =>
      sourcesAfter (""%string, ref, Moco.emptyTable Moco.Rotation) rest
  | CallSetRotationReference ref :: rest =>
      sourcesAfter (""%string, Moco.emptyTable Moco.double, ref) rest
  | _ :: rest => sourcesAfter sources rest
  end.

(** The weight a sequence of (name, weight) assignments leaves for [name]:
    that of the last assignment to [name], [before] when there is none. *)
Fixpoint lastAssigned (assignments : list (string * Moco.double))
    (name : string) (before : option Moco.double) : option Moco.double :=
  match assignments with
  | [] => before
  | (n, w) :: rest =>
      lastAssigned rest name (if String.eqb n name then Some w else before)
  end.

(** Which calls are reference setters. *)
Definition isReferenceSetter (call : MocoCall) : bool :=
  match call with
  | CallSetStatesReferenceFile _ | CallSetStatesReference _
  | CallSetRotationReference _ => true
  | _ => false
  end.

(** The calls that make the assignments, in order. *)
Definition setWeightCalls (assignments : list (string * Moco.double))
    : list MocoCall :=
  map (fun nw => CallSetWeight (fst nw) (snd nw)) assignments.

(** At most one source, as a property of the three sources. *)
Definition atMostOneSource
    (sources : string * Moco.TimeSeriesTable * Moco.TimeSeriesTable_ Moco.Rotation)
    : Prop :=
  ((if String.eqb (fst (fst sources)) "" then 0 else 1)
   + (if Moco.tableIsEmpty (snd (fst sources)) then 0 else 1)
   + (if Moco.tableIsEmpty (snd sources) then 0 else 1) <= 1)%nat.

(** ** The log of [simulate] *)

(** What one simulation writes to the log: the Manager is initialised, asked
    to integrate, and the states are printed when requested. *)
Definition passEvents (model : SimulationUtilities.Model)
    (finalTime : SimulationUtilities.double) (saveStatesFile : bool)
    (initialState0 : SimulationUtilities.State)
    : list SimulationUtilities.Event :=
  [SimulationUtilities.ManagerInitialize initialState0;
   SimulationUtilities.ManagerIntegrate finalTime]
  ++ (if saveStatesFile
      then [SimulationUtilities.StoragePrint
              (SimulationUtilities.getName model ++ "_states.sto")]
      else []).

(** The log of the replays started by the keys [ks]. *)
Definition replayEvents (model : SimulationUtilities.Model)
    (finalTime : SimulationUtilities.double) (saveStatesFile : bool)
    (initialState0 : SimulationUtilities.State) (ks : list Z)
    : list SimulationUtilities.Event :=
  flat_map (fun key => [SimulationUtilities.SiloClear;
                        SimulationUtilities.SiloWaitForKeyHit key]
                       ++ passEvents model finalTime saveStatesFile
                            initialState0) ks.

(** What the set-up of the visualizer writes to the log. *)
Definition visualizerSetUp (initialState0 : SimulationUtilities.State)
    : list SimulationUtilities.Event :=
  [SimulationUtilities.VizAddDecoration
     "Press any key to start a new simulation; ESC to quit.";
   SimulationUtilities.VizSetShowSimTime true;
   SimulationUtilities.VizDrawFrameNow initialState0;
   SimulationUtilities.CoutVisualizerOpened].

(** ** Reading a storage and a path *)

(** The value in row [row] and state column [col] of a storage. *)
Definition entry (s : Pre40Kinematics.Storage) (row col : nat)
    : option Pre40Kinematics.double :=
  match nth_error (Pre40Kinematics.getRows s) row with
  | Some r => nth_error (Pre40Kinematics.sv_data r) col
  | None => None
  end.

(** How many of the coordinates have state column [col] in a storage with
    the given labels. *)
Definition timesTargeted (findStateIndex : list string -> string -> Z)
    (labels : list string) (coords : list Pre40Kinematics.Coordinate)
    (col : nat) : nat :=
  length (filter (fun c => Z.eqb (findStateIndex labels
                                    (Pre40Kinematics.coord_getName c))
                                 (Z.of_nat col))
                 coords).

(** Multiply by [factor], [n] times over. *)
Definition scaledTimes (n : nat) (factor : Pre40Kinematics.double)
    (v : Pre40Kinematics.double) : Pre40Kinematics.double :=
  Nat.iter n (fun x => PrimFloat.mul x factor) v.

(** Whether a character occurs in a string. *)
Fixpoint occursIn (c : ascii) (s : string) : bool :=
  match s with
  | EmptyString => false
  | String a rest => Ascii.eqb a c || occursIn c rest
  end.

(** The shape of a storage: its name, its [inDegrees] flag, its column
    labels, and the time and the number of values of each of its rows;
    everything but the values. *)
Definition shape (s : Pre40Kinematics.Storage)
    : string * bool * list string * list (Pre40Kinematics.double * nat) :=
  (Pre40Kinematics.storage_getName s, Pre40Kinematics.isInDegrees s,
   Pre40Kinematics.getColumnLabels s,
   map (fun r => (Pre40Kinematics.sv_time r,
                  length (Pre40Kinematics.sv_data r)))
       (Pre40Kinematics.getRows s)).

(** ** Sample data for the kinematics upgrade *)

(** A search of the labels by equality: the position of the first label
    equal to the name, -1 when there is none. *)
Fixpoint firstLabel (labels : list string) (name : string) : Z :=
  match labels with
  | [] => (-1)%Z
  | label :: rest =>
      if String.eqb label name then 0%Z
      else let r := firstLabel rest name in
           if (r <? 0)%Z then (-1)%Z else (r + 1)%Z
  end.

Definition sampleDTR : Pre40Kinematics.double := 0x1.1df46a2529d39p-6%float.

Definition legCoordinates : list Pre40Kinematics.Coordinate :=
  [Pre40Kinematics.mkCoordinate "knee_angle"
     Pre40Kinematics.Rotational Pre40Kinematics.Rotational;
   Pre40Kinematics.mkCoordinate "patella"
     Pre40Kinematics.Rotational Pre40Kinematics.Coupled;
   Pre40Kinematics.mkCoordinate "hip_flexion"
     Pre40Kinematics.Undefined Pre40Kinematics.Rotational].

Definition pre40Leg : Pre40Kinematics.Model :=
  Pre40Kinematics.mkModel "leg6dof" 30000 legCoordinates.

Definition upToDateLeg : Pre40Kinematics.Model :=
  Pre40Kinematics.mkModel "leg6dof" 30516 legCoordinates.

Definition consistentLeg : Pre40Kinematics.Model :=
  Pre40Kinematics.mkModel "leg6dof" 30000
    [Pre40Kinematics.mkCoordinate "knee_angle"
       Pre40Kinematics.Rotational Pre40Kinematics.Rotational].

Definition walkMotion : Pre40Kinematics.Storage :=
  Pre40Kinematics.mkStorage "walk" true ["knee_angle"%string; "patella"%string]
    [Pre40Kinematics.mkStateVector 0%float [10%float; 20%float];
     Pre40Kinematics.mkStateVector 1%float [30%float; 40%float]].

Definition armMotion : Pre40Kinematics.Storage :=
  Pre40Kinematics.mkStorage "arm" true ["elbow_flexion"%string]
    [Pre40Kinematics.mkStateVector 0%float [90%float]].

Definition sampleDisk (filePath : string)
    : Exception + Pre40Kinematics.Storage :=
  if String.eqb filePath "walk.mot" then inr walkMotion
  else if String.eqb filePath "arm.mot" then inr armMotion
  else inl (mkException "Storage: cannot open file").

Definition throwingIntegrate (m : SimulationUtilities.Model)
    (s : SimulationUtilities.State) (tf : SimulationUtilities.double)
    : Exception + SimulationUtilities.State :=
  inl (mkException "Integration failed").

(** ** Sample data for the assembled NLP *)

Definition meshSolver : CasOC.Solver :=
  CasOC.mkSolver (pendulumProblem false) "trapezoidal" 4.

(** Two states (position, speed) driven by the first control; the position
    is the path-constraint output. *)
Definition sampleEvaluators : CasOCTranscription.Evaluators :=
  CasOCTranscription.mkEvaluators
    (fun t x u q => [nth 1 x 0; nth 0 u 0])
    (fun t x u q => [nth 0 x 0])
    (fun t x u q => nth 0 u 0 * nth 0 u 0)
    (fun t x q => 0).

(** The same, with a path-constraint evaluator that returns two values where
    the problem declares one. *)
Definition missizedEvaluators : CasOCTranscription.Evaluators :=
  CasOCTranscription.mkEvaluators
    (fun t x u q => [nth 1 x 0; nth 0 u 0])
    (fun t x u q => [nth 0 x 0; nth 1 x 0])
    (fun t x u q => nth 0 u 0 * nth 0 u 0)
    (fun t x q => 0).

(** A decision vector for four nodes: per node two states and two controls,
    then the quadrature variable. *)
Definition sampleDecision : list Q :=
  [0; 0; 1; 0;   1 # 4; 1; 1; 0;   1 # 2; 1; 1; 0;   1; 1; 1; 0;   5].

(** Unfold the effectful code down to the log transformer. *)
Ltac run_eff :=
  unfold run, CasOC.Solver_solve, CasOC.Transcription_solve,
    CasOC.Trapezoidal_ctor, CasOC.Transcription_ctor,
    CasOC.createVariablesAndSetBounds, CasOC.getNumMeshPoints,
    OPENSIM_THROW_IF, OPENSIM_THROW, bind, ret, throw, emit, lift;
  cbn [app fst snd].

(** Discharge [nodeData] on concrete data. *)
Ltac node_data :=
  split; [reflexivity |];
  let k := fresh "k" in
  let Hk := fresh "Hk" in
  intros k Hk;
  repeat (destruct k as [| k]; [reflexivity |]); lia.

(* ================================================================== *)
(** * Properties of [Solver::solve] and of the [Trapezoidal] constructor *)
(* ================================================================== *)

(** What the constructor does when the flag is clear: exactly two steps. *)
Lemma Trapezoidal_ctor_accepts (solver : CasOC.Solver) (problem : CasOC.Problem) :
  CasOC.getEnforceConstraintDerivatives problem = false ->
  let N := CasOC.getNumMeshPoints solver in
  let vars := CasOC.allocateVariables problem (Z.to_nat N) in
  run (CasOC.Trapezoidal_ctor solver problem) =
    (inr (CasOC.mkTranscription solver problem N N vars),
     [CasOC.TranscriptionConstructed N N;
      CasOC.VariablesCreated (length vars)]).
Proof.
  intros Hflag. run_eff. rewrite Hflag. reflexivity.
Qed.

Lemma Trapezoidal_ctor_rejects (solver : CasOC.Solver) (problem : CasOC.Problem) :
  CasOC.getEnforceConstraintDerivatives problem = true ->
  let N := CasOC.getNumMeshPoints solver in
  run (CasOC.Trapezoidal_ctor solver problem) =
    (inl (mkException derivativesMessage),
     [CasOC.TranscriptionConstructed N N]).
Proof.
  intros Hflag. run_eff. rewrite Hflag. reflexivity.
Qed.

(** [Solver::solve] on the recognised name is the constructor followed by the
    engine's [solve]. *)
Lemma Solver_solve_trapezoidal
    (tsolve : CasOC.Transcription -> Exception + CasOC.Solution)
    (solver : CasOC.Solver) :
  CasOC.m_transcriptionScheme solver = "trapezoidal"%string ->
  run (CasOC.Solver_solve tsolve solver) =
    match run (CasOC.Trapezoidal_ctor solver (CasOC.m_problem solver)) with
    | (inl e, log) => (inl e, log)
    | (inr t, log) => (tsolve t, log ++ [CasOC.TranscriptionSolveCalled])
    end.
Proof.
  intros Hname. unfold run, CasOC.Solver_solve. rewrite Hname.
  cbn [String.eqb Ascii.eqb Bool.eqb]. unfold bind at 1.
  destruct (CasOC.Trapezoidal_ctor solver (CasOC.m_problem solver) [])
    as [[e | t] log]; reflexivity.
Qed.

(** C1.  Whatever the mesh-point count (so in particular for every N >= 2),
    constructing the Trapezoidal transcription for a Problem with
    [enforceConstraintDerivatives = true] throws the "not supported with
    trapezoidal transcription" exception.  The log of the run holds the
    base-class construction only: [createVariablesAndSetBounds] was not
    reached, no variable was allocated, and, when the construction is the
    one made by [Solver::solve], the engine's [solve] (where the NLP is
    built) was not entered either. *)
Theorem C1_trapezoidal_rejects_constraint_derivatives
    (tsolve : CasOC.Transcription -> Exception + CasOC.Solution)
    (solver : CasOC.Solver) (problem : CasOC.Problem) :
  CasOC.getEnforceConstraintDerivatives problem = true ->
  let N := CasOC.getNumMeshPoints solver in
  let failure : (Exception + CasOC.Transcription) * list CasOC.Event :=
    (inl (mkException derivativesMessage),
     [CasOC.TranscriptionConstructed N N]) in
  run (CasOC.Trapezoidal_ctor solver problem) = failure
  /\ (forall n, ~ In (CasOC.VariablesCreated n)
                     (snd (run (CasOC.Trapezoidal_ctor solver problem))))
  /\ (CasOC.m_transcriptionScheme solver = "trapezoidal"%string ->
      CasOC.m_problem solver = problem ->
      run (CasOC.Solver_solve tsolve solver) =
        (inl (mkException derivativesMessage),
         [CasOC.TranscriptionConstructed N N])).
Proof.
  intros Hflag N failure. subst failure.
  pose proof (Trapezoidal_ctor_rejects solver problem Hflag) as Hctor.
  cbv zeta in Hctor. fold N in Hctor.
  split; [exact Hctor | split].
  - intros n. rewrite Hctor. cbn [snd In].
    intros [Hev | []]. discriminate Hev.
  - intros Hname Hprob.
    rewrite (Solver_solve_trapezoidal tsolve solver Hname), Hprob, Hctor.
    reflexivity.
Qed.

Lemma C1_witness :
  CasOC.getEnforceConstraintDerivatives (pendulumProblem true) = true
  /\ run (CasOC.Solver_solve constantSolve (pendulumSolver "trapezoidal" true)) =
       (inl (mkException derivativesMessage),
        [CasOC.TranscriptionConstructed 50 50]).
Proof.
  split; [reflexivity|].
  exact (proj2 (proj2
    (C1_trapezoidal_rejects_constraint_derivatives constantSolve
       (pendulumSolver "trapezoidal" true) (pendulumProblem true) eq_refl))
    eq_refl eq_refl).
Defined.

(** C2.  For every configured scheme name other than "trapezoidal",
    [Solver::solve] throws an exception whose message is
    [Unknown transcription scheme '<name>'.], so it names the offending
    string; the log of the run is empty: no Transcription was constructed
    and the engine's [solve] (NLP assembly and the external solver) was never
    entered. *)
Theorem C2_unknown_scheme_rejected
    (tsolve : CasOC.Transcription -> Exception + CasOC.Solution)
    (solver : CasOC.Solver) :
  CasOC.m_transcriptionScheme solver <> "trapezoidal"%string ->
  run (CasOC.Solver_solve tsolve solver) =
    (inl (mkException
            ("Unknown transcription scheme '"
             ++ CasOC.m_transcriptionScheme solver ++ "'.")%string),
     []).
Proof.
  intros Hname. apply String.eqb_neq in Hname.
  unfold run, CasOC.Solver_solve. rewrite Hname.
  unfold bind, OPENSIM_THROW, throw. reflexivity.
Qed.

Lemma C2_witness :
  run (CasOC.Solver_solve constantSolve (pendulumSolver "hermite-simpson" false)) =
    (inl (mkException "Unknown transcription scheme 'hermite-simpson'."), []).
Proof.
  apply (C2_unknown_scheme_rejected constantSolve
           (pendulumSolver "hermite-simpson" false)).
  cbn. discriminate.
Defined.

(** The first thing any run of the constructor does is to initialise the
    base class with the solver's mesh-point count, twice. *)
Lemma Trapezoidal_ctor_log (solver : CasOC.Solver) (problem : CasOC.Problem) :
  let N := CasOC.getNumMeshPoints solver in
  exists rest,
    snd (run (CasOC.Trapezoidal_ctor solver problem)) =
      CasOC.TranscriptionConstructed N N :: rest
    /\ forall a b, ~ In (CasOC.TranscriptionConstructed a b) rest.
Proof.
  intros N.
  destruct (CasOC.getEnforceConstraintDerivatives problem) eqn:Hflag.
  - exists []. rewrite (Trapezoidal_ctor_rejects solver problem Hflag).
    split; [reflexivity | intros a b []].
  - eexists. rewrite (Trapezoidal_ctor_accepts solver problem Hflag).
    split; [reflexivity |].
    intros a b [Hev | []]. discriminate Hev.
Qed.

(** C6.  When [Solver::solve] constructs the Trapezoidal transcription, the
    base class receives the solver's configured mesh-point count both as its
    number of mesh points and as its number of grid points: the run's log
    starts with that construction, it is the only construction in the log,
    and a transcription that comes out of the constructor stores the two
    equal counts. *)
Theorem C6_mesh_and_grid_counts_coincide
    (tsolve : CasOC.Transcription -> Exception + CasOC.Solution)
    (solver : CasOC.Solver) :
  CasOC.m_transcriptionScheme solver = "trapezoidal"%string ->
  let N := CasOC.getNumMeshPoints solver in
  let log := snd (run (CasOC.Solver_solve tsolve solver)) in
  (exists rest, log = CasOC.TranscriptionConstructed N N :: rest)
  /\ (forall a b, In (CasOC.TranscriptionConstructed a b) log ->
                  a = N /\ b = N)
  /\ (forall t,
        fst (run (CasOC.Trapezoidal_ctor solver (CasOC.m_problem solver))) = inr t ->
        CasOC.t_numMeshPoints t = N /\ CasOC.t_numGridPoints t = N).
Proof.
  intros Hname N log. subst log.
  rewrite (Solver_solve_trapezoidal tsolve solver Hname).
  destruct (Trapezoidal_ctor_log solver (CasOC.m_problem solver))
    as [rest [Hlog Hrest]]. fold N in Hlog.
  destruct (run (CasOC.Trapezoidal_ctor solver (CasOC.m_problem solver)))
    as [[e | t] log0] eqn:Hrun; cbn [fst snd] in *; subst log0.
  - split; [eauto | split].
    + intros a b [Hev | Hin].
      * injection Hev as <- <-. auto.
      * destruct (Hrest a b Hin).
    + intros t Ht. discriminate Ht.
  - split; [cbn [app]; eauto | split].
    + intros a b Hin. cbn [app] in Hin. destruct Hin as [Hev | Hin].
      * injection Hev as <- <-. auto.
      * apply in_app_or in Hin. destruct Hin as [Hin | [Hev | []]].
        -- destruct (Hrest a b Hin).
        -- discriminate Hev.
    + intros t' Ht'. injection Ht' as <-.
      destruct (CasOC.getEnforceConstraintDerivatives (CasOC.m_problem solver))
        eqn:Hflag.
      * rewrite (Trapezoidal_ctor_rejects solver _ Hflag) in Hrun.
        discriminate Hrun.
      * rewrite (Trapezoidal_ctor_accepts solver _ Hflag) in Hrun.
        injection Hrun as <- _. split; reflexivity.
Qed.

Lemma C6_witness :
  exists rest,
    snd (run (CasOC.Solver_solve constantSolve (pendulumSolver "trapezoidal" false)))
    = CasOC.TranscriptionConstructed 50 50 :: rest.
Proof.
  exact (proj1 (C6_mesh_and_grid_counts_coincide constantSolve
                  (pendulumSolver "trapezoidal" false) eq_refl)).
Defined.

(** C7 as stated does not hold for every solver configured with the
    recognised name: with derivative enforcement requested the constructor
    throws, so nothing is delegated and no Solution comes back. *)
Lemma C7_counterexample :
  CasOC.m_transcriptionScheme (pendulumSolver "trapezoidal" true)
    = "trapezoidal"%string
  /\ ~ solve_delegates constantSolve (pendulumSolver "trapezoidal" true).
Proof.
  split; [reflexivity|].
  intros [t [log [Hctor _]]].
  rewrite (Trapezoidal_ctor_rejects (pendulumSolver "trapezoidal" true)
             (CasOC.m_problem (pendulumSolver "trapezoidal" true)) eq_refl)
    in Hctor.
  discriminate Hctor.
Qed.

(** C7, amended.  For the recognised name "trapezoidal" and a Problem that
    does not request constraint-derivative enforcement, [Solver::solve]
    constructs the Trapezoidal transcription, calls the engine's [solve] on
    it exactly once, after the construction, and yields exactly what that
    call yields: the Solution, untouched (or the exception the call threw). *)
Theorem C7_solve_delegates_unchanged
    (tsolve : CasOC.Transcription -> Exception + CasOC.Solution)
    (solver : CasOC.Solver) :
  CasOC.m_transcriptionScheme solver = "trapezoidal"%string ->
  CasOC.getEnforceConstraintDerivatives (CasOC.m_problem solver) = false ->
  solve_delegates tsolve solver
  /\ (forall sol t log,
        run (CasOC.Trapezoidal_ctor solver (CasOC.m_problem solver)) = (inr t, log) ->
        tsolve t = inr sol ->
        fst (run (CasOC.Solver_solve tsolve solver)) = inr sol).
Proof.
  intros Hname Hflag.
  pose proof (Trapezoidal_ctor_accepts solver (CasOC.m_problem solver) Hflag)
    as Hctor. cbv zeta in Hctor.
  pose proof (Solver_solve_trapezoidal tsolve solver Hname) as Hsolve.
  rewrite Hctor in Hsolve.
  split.
  - unfold solve_delegates. eexists. eexists.
    split; [exact Hctor | exact Hsolve].
  - intros sol t log Ht Hsol. rewrite Hctor in Ht.
    injection Ht as <- <-. rewrite Hsolve. cbn [fst]. exact Hsol.
Qed.

Lemma C7_witness :
  fst (run (CasOC.Solver_solve constantSolve (pendulumSolver "trapezoidal" false)))
  = inr zeroSolution.
Proof.
  refine (proj2 (C7_solve_delegates_unchanged constantSolve
                   (pendulumSolver "trapezoidal" false) eq_refl eq_refl)
            zeroSolution _ _ _ eq_refl).
  apply (Trapezoidal_ctor_accepts (pendulumSolver "trapezoidal" false)
           (CasOC.m_problem (pendulumSolver "trapezoidal" false)) eq_refl).
Defined.

(* ================================================================== *)
(** * Trapezoidal quadrature coefficients                              *)
(* ================================================================== *)

Lemma nth_map_seq {A} (f : nat -> A) (n k : nat) (d : A) :
  (k < n)%nat -> nth k (map f (seq 0 n)) d = f k.
Proof.
  intros Hk. rewrite (nth_indep _ d (f 0%nat)) by (rewrite length_map, length_seq; exact Hk).
  rewrite map_nth, seq_nth by exact Hk. reflexivity.
Qed.

Lemma length_meshIntervals (mesh : list Q) :
  length (CasOC.meshIntervals mesh) = (length mesh - 1)%nat.
Proof.
  induction mesh as [| t0 [| t1 rest] IH]; try reflexivity.
  change (CasOC.meshIntervals (t0 :: t1 :: rest))
    with ((t1 - t0) :: CasOC.meshIntervals (t1 :: rest)).
  cbn [length] in *. rewrite IH. lia.
Qed.

Lemma nth_meshIntervals (mesh : list Q) (k : nat) :
  (S k < length mesh)%nat ->
  nth k (CasOC.meshIntervals mesh) 0 = nth (S k) mesh 0 - nth k mesh 0.
Proof.
  revert k. induction mesh as [| t0 [| t1 rest] IH]; intros k Hk;
    cbn [length] in Hk; try lia.
  change (CasOC.meshIntervals (t0 :: t1 :: rest))
    with ((t1 - t0) :: CasOC.meshIntervals (t1 :: rest)).
  destruct k as [| k]; [reflexivity |].
  cbn [nth]. rewrite IH by (cbn [length]; lia). reflexivity.
Qed.

Lemma sumQ_halfWidthSums (h : list Q) : forall prev,
  CasOC.sumQ (halfWidthSums prev h) == prev + CasOC.sumQ h.
Proof.
  induction h as [| hk rest IH]; intros prev; cbn [halfWidthSums CasOC.sumQ fold_right].
  - reflexivity.
  - fold (CasOC.sumQ (halfWidthSums (hk / 2) rest)). fold (CasOC.sumQ rest).
    rewrite IH. field.
Qed.

Lemma sumQ_meshIntervals (mesh : list Q) :
  (1 <= length mesh)%nat ->
  CasOC.sumQ (CasOC.meshIntervals mesh) == nth (length mesh - 1) mesh 0 - nth 0 mesh 0.
Proof.
  induction mesh as [| t0 [| t1 rest] IH]; intros Hlen; cbn [length] in Hlen.
  - lia.
  - cbn. ring.
  - change (CasOC.meshIntervals (t0 :: t1 :: rest))
      with ((t1 - t0) :: CasOC.meshIntervals (t1 :: rest)).
    cbn [CasOC.sumQ fold_right]. fold (CasOC.sumQ (CasOC.meshIntervals (t1 :: rest))).
    rewrite IH by (cbn [length]; lia).
    replace (length (t0 :: t1 :: rest) - 1)%nat
      with (S (length (t1 :: rest) - 1)) by (cbn [length]; lia).
    cbn [nth]. ring.
Qed.

Lemma length_halfWidthSums (h : list Q) : forall prev,
  length (halfWidthSums prev h) = S (length h).
Proof.
  induction h as [| hk rest IH]; intros prev; cbn [halfWidthSums length].
  - reflexivity.
  - rewrite IH. reflexivity.
Qed.

Lemma nth_halfWidthSums (h : list Q) : forall prev k,
  (k <= length h)%nat ->
  nth k (halfWidthSums prev h) 0 ==
    (if Nat.eqb k 0 then prev else nth (k - 1) h 0 / 2)
    + (if Nat.ltb k (length h) then nth k h 0 / 2 else 0).
Proof.
  induction h as [| hk rest IH]; intros prev k Hk; cbn [length] in Hk.
  - replace k with 0%nat by lia. cbn. ring.
  - destruct k as [| k].
    + cbn. ring.
    + cbn [halfWidthSums nth]. rewrite IH by lia.
      cbn [length]. change (Nat.ltb (S k) (S (length rest))) with (Nat.ltb k (length rest)).
      destruct k as [| k]; cbn [Nat.eqb Nat.sub nth].
      * reflexivity.
      * rewrite Nat.sub_0_r. reflexivity.
Qed.

Lemma sumQ_pointwise (a b : list Q) :
  length a = length b ->
  (forall k, (k < length a)%nat -> nth k a 0 == nth k b 0) ->
  CasOC.sumQ a == CasOC.sumQ b.
Proof.
  revert b. induction a as [| x a IH]; intros [| y b] Hlen Hnth;
    cbn [length] in Hlen; try discriminate.
  - reflexivity.
  - cbn [CasOC.sumQ fold_right]. fold (CasOC.sumQ a). fold (CasOC.sumQ b).
    rewrite (IH b).
    + rewrite (Hnth 0%nat) by (cbn [length]; lia). cbn [nth]. reflexivity.
    + lia.
    + intros k Hk. apply (Hnth (S k)). cbn [length]. lia.
Qed.

Lemma quadratureCoefficient_halfWidthSums (mesh : list Q) (k : nat) :
  (2 <= length mesh)%nat -> (k < length mesh)%nat ->
  CasOC.quadratureCoefficient mesh k ==
    nth k (halfWidthSums 0 (CasOC.meshIntervals mesh)) 0.
Proof.
  intros HN Hk.
  rewrite nth_halfWidthSums by (rewrite length_meshIntervals; lia).
  unfold CasOC.quadratureCoefficient. rewrite length_meshIntervals.
  destruct (Nat.eqb k 0) eqn:Hk0.
  - apply Nat.eqb_eq in Hk0. subst k.
    replace (Nat.ltb 0 (length mesh - 1)) with true
      by (symmetry; apply Nat.ltb_lt; lia).
    ring.
  - apply Nat.eqb_neq in Hk0.
    destruct (Nat.eqb (S k) (length mesh)) eqn:Hlast.
    + apply Nat.eqb_eq in Hlast.
      replace (Nat.ltb k (length mesh - 1)) with false
        by (symmetry; apply Nat.ltb_ge; lia).
      replace (length mesh - 2)%nat with (k - 1)%nat by lia. ring.
    + apply Nat.eqb_neq in Hlast.
      replace (Nat.ltb k (length mesh - 1)) with true
        by (symmetry; apply Nat.ltb_lt; lia).
      field.
Qed.

(** C4.  For every mesh of N >= 2 nodes (strictly increasing or not) with
    interval widths [h_k = t_{k+1} - t_k], the coefficients returned by
    [createQuadratureCoefficientsImpl] are one per node, with
    [w_0 = h_0/2], [w_{N-1} = h_{N-2}/2] and [w_k = (h_{k-1}+h_k)/2] at
    every interior node; when all widths equal one value [width] they are
    [width/2] at both ends and [width] inside; and they sum to
    [t_{N-1} - t_0].  Arithmetic is exact (rationals). *)
Theorem C4_trapezoidal_quadrature_coefficients (mesh : list Q) :
  (2 <= length mesh)%nat ->
  let N := length mesh in
  let w := CasOC.createQuadratureCoefficientsImpl mesh in
  let h := fun k : nat => nth (S k) mesh 0 - nth k mesh 0 in
  length w = N
  /\ nth 0 w 0 = h 0%nat / 2
  /\ nth (N - 1) w 0 = h (N - 2)%nat / 2
  /\ (forall k, (0 < k)%nat -> (S k < N)%nat ->
        nth k w 0 = (h (k - 1)%nat + h k) / 2)
  /\ (forall width,
        (forall k, (S k < N)%nat -> h k == width) ->
        nth 0 w 0 == width / 2
        /\ nth (N - 1) w 0 == width / 2
        /\ (forall k, (0 < k)%nat -> (S k < N)%nat -> nth k w 0 == width))
  /\ CasOC.sumQ w == nth (N - 1) mesh 0 - nth 0 mesh 0.
Proof.
  intros HN N w h.
  assert (Hlen : length w = N).
  { unfold w, CasOC.createQuadratureCoefficientsImpl.
    rewrite length_map, length_seq. reflexivity. }
  assert (Hw : forall k, (k < N)%nat -> nth k w 0 = CasOC.quadratureCoefficient mesh k).
  { intros k Hk. unfold w, CasOC.createQuadratureCoefficientsImpl.
    apply nth_map_seq. exact Hk. }
  assert (H0 : nth 0 w 0 = h 0%nat / 2).
  { rewrite Hw by (unfold N; lia). unfold CasOC.quadratureCoefficient.
    cbn [Nat.eqb]. rewrite nth_meshIntervals by lia. reflexivity. }
  assert (Hlast : nth (N - 1) w 0 = h (N - 2)%nat / 2).
  { rewrite Hw by (unfold N; lia). unfold CasOC.quadratureCoefficient. fold N.
    replace (Nat.eqb (N - 1) 0) with false
      by (symmetry; apply Nat.eqb_neq; unfold N; lia).
    replace (Nat.eqb (S (N - 1)) N) with true
      by (symmetry; apply Nat.eqb_eq; unfold N; lia).
    rewrite nth_meshIntervals by (fold N; lia). reflexivity. }
  assert (Hmid : forall k, (0 < k)%nat -> (S k < N)%nat ->
                   nth k w 0 = (h (k - 1)%nat + h k) / 2).
  { intros k Hpos Hk. rewrite Hw by lia. unfold CasOC.quadratureCoefficient. fold N.
    replace (Nat.eqb k 0) with false by (symmetry; apply Nat.eqb_neq; lia).
    replace (Nat.eqb (S k) N) with false by (symmetry; apply Nat.eqb_neq; lia).
    rewrite !nth_meshIntervals by (fold N; lia).
    unfold h. replace (S (k - 1)) with k by lia. reflexivity. }
  split; [exact Hlen | split; [exact H0 | split; [exact Hlast |]]].
  split; [exact Hmid | split].
  - intros width Huniform. split; [| split].
    + rewrite H0. rewrite (Huniform 0%nat) by (unfold N; lia). reflexivity.
    + rewrite Hlast. rewrite (Huniform (N - 2)%nat) by (unfold N; lia).
      reflexivity.
    + intros k Hpos Hk. rewrite Hmid by assumption.
      rewrite (Huniform (k - 1)%nat), (Huniform k) by lia. field.
  - rewrite (sumQ_pointwise w (halfWidthSums 0 (CasOC.meshIntervals mesh))).
    + rewrite sumQ_halfWidthSums, sumQ_meshIntervals by lia. fold N. ring.
    + rewrite Hlen, length_halfWidthSums, length_meshIntervals. unfold N. lia.
    + intros k Hk. rewrite Hlen in Hk. rewrite Hw by exact Hk.
      apply quadratureCoefficient_halfWidthSums; [exact HN | exact Hk].
Qed.

Lemma C4_witness :
  (2 <= length sampleMesh)%nat
  /\ CasOC.sumQ (CasOC.createQuadratureCoefficientsImpl sampleMesh) == 1 - 0.
Proof.
  assert (Hlen : (2 <= length sampleMesh)%nat) by (cbn; lia).
  split; [exact Hlen |].
  exact (proj2 (proj2 (proj2 (proj2 (proj2
    (C4_trapezoidal_quadrature_coefficients sampleMesh Hlen)))))).
Defined.

(** On the mesh 0, 1/4, 1/2, 1 the weights are 1/8, 1/4, 3/8, 1/4. *)
Example quadrature_of_sampleMesh :
  map Qred (CasOC.createQuadratureCoefficientsImpl sampleMesh)
  = [1 # 8; 1 # 4; 3 # 8; 1 # 4].
Proof. reflexivity. Qed.

(* ================================================================== *)
(** * Decision variables and constraints of the trapezoidal scheme     *)
(* ================================================================== *)

Lemma length_indexed {A} (l : list A) : length (CasOC.indexed l) = length l.
Proof.
  unfold CasOC.indexed. rewrite length_combine, length_seq. apply Nat.min_id.
Qed.

Lemma nth_error_combine_seq {A} (l : list A) : forall s k a,
  nth_error l k = Some a ->
  nth_error (combine (seq s (length l)) l) k = Some ((s + k)%nat, a).
Proof.
  induction l as [| x l IH]; intros s k a Hk.
  - destruct k; discriminate Hk.
  - destruct k as [| k]; cbn [length seq combine nth_error] in *.
    + injection Hk as <-. rewrite Nat.add_0_r. reflexivity.
    + rewrite (IH (S s) k a Hk). f_equal. f_equal. lia.
Qed.

Lemma nth_error_indexed {A} (l : list A) (k : nat) (a : A) :
  nth_error l k = Some a -> nth_error (CasOC.indexed l) k = Some (k, a).
Proof.
  intros Hk. unfold CasOC.indexed.
  rewrite (nth_error_combine_seq l 0 k a Hk). reflexivity.
Qed.

Lemma length_nodeVariables (p : CasOC.Problem) (N node : nat) :
  length (CasOC.nodeVariables p N node) =
    (CasOC.getNumStates p + CasOC.getNumControls p)%nat.
Proof.
  unfold CasOC.nodeVariables, CasOC.getNumStates, CasOC.getNumControls.
  rewrite length_app, !length_map, !length_indexed. reflexivity.
Qed.

Lemma length_allocateVariables (p : CasOC.Problem) (N : nat) :
  length (CasOC.allocateVariables p N) =
    (N * (CasOC.getNumStates p + CasOC.getNumControls p)
     + CasOC.getNumParameters p
     + (if CasOC.hasIntegralCost p then 1 else 0))%nat.
Proof.
  unfold CasOC.allocateVariables.
  rewrite !length_app.
  rewrite (@flat_map_constant_length _ _
             (CasOC.getNumStates p + CasOC.getNumControls p)%nat)
    by (intros node _; apply length_nodeVariables).
  rewrite length_seq.
  unfold CasOC.parameterVariables, CasOC.quadratureVariables,
    CasOC.getNumParameters.
  rewrite length_map, length_indexed.
  destruct (CasOC.hasIntegralCost p); cbn [length]; lia.
Qed.

Lemma length_vzip (op : Q -> Q -> Q) (a : list Q) : forall b,
  length (CasOC.vzip op a b) = Nat.min (length a) (length b).
Proof.
  induction a as [| x a IH]; intros [| y b]; cbn [CasOC.vzip length Nat.min];
    try reflexivity.
  rewrite IH. reflexivity.
Qed.

Lemma nth_vzip (op : Q -> Q -> Q) (a : list Q) : forall b j,
  (j < length a)%nat -> (j < length b)%nat ->
  nth j (CasOC.vzip op a b) 0 = op (nth j a 0) (nth j b 0).
Proof.
  induction a as [| x a IH]; intros [| y b] j Ha Hb;
    cbn [length] in Ha, Hb; try lia.
  destruct j as [| j]; cbn [CasOC.vzip nth]; [reflexivity |].
  apply IH; lia.
Qed.

Lemma nth_vscale (c : Q) (a : list Q) (j : nat) :
  (j < length a)%nat ->
  nth j (CasOC.vscale c a) 0 = c * nth j a 0.
Proof.
  intros Hj. unfold CasOC.vscale.
  rewrite (nth_indep _ 0 (c * 0)) by (rewrite length_map; exact Hj).
  apply map_nth.
Qed.

Lemma length_defectVector (h : Q) (xk xk1 fk fk1 : list Q) (n : nat) :
  length xk = n -> length xk1 = n -> length fk = n -> length fk1 = n ->
  length (CasOC.defectVector h xk xk1 fk fk1) = n.
Proof.
  intros H1 H2 H3 H4. unfold CasOC.defectVector, CasOC.vsub, CasOC.vadd, CasOC.vscale.
  rewrite !length_vzip, length_map, length_vzip. lia.
Qed.

Lemma nth_defectVector (h : Q) (xk xk1 fk fk1 : list Q) (n j : nat) :
  length xk = n -> length xk1 = n -> length fk = n -> length fk1 = n ->
  (j < n)%nat ->
  nth j (CasOC.defectVector h xk xk1 fk fk1) 0 =
    nth j xk1 0 - nth j xk 0 - (h / 2) * (nth j fk 0 + nth j fk1 0).
Proof.
  intros H1 H2 H3 H4 Hj. unfold CasOC.defectVector, CasOC.vsub, CasOC.vadd.
  rewrite nth_vzip.
  - rewrite nth_vzip by lia. rewrite nth_vscale.
    + rewrite nth_vzip by lia. reflexivity.
    + rewrite length_vzip. lia.
  - rewrite length_vzip. lia.
  - unfold CasOC.vscale. rewrite length_map, length_vzip. lia.
Qed.

Lemma defectConstraints_step (k : nat) (t0 t1 : Q) (mesh : list Q)
    (x0 x1 : list Q) (x : list (list Q)) (f0 f1 : list Q) (f : list (list Q)) :
  CasOC.defectConstraints k (t0 :: t1 :: mesh) (x0 :: x1 :: x) (f0 :: f1 :: f)
  = CasOC.equalToZero (CasOC.Defect k) (CasOC.defectVector (t1 - t0) x0 x1 f0 f1)
    :: CasOC.defectConstraints (S k) (t1 :: mesh) (x1 :: x) (f1 :: f).
Proof. reflexivity. Qed.
Lemma length_defectConstraints (mesh : list Q) : forall k0 x xdot,
  length x = length mesh -> length xdot = length mesh ->
  length (CasOC.defectConstraints k0 mesh x xdot) = (length mesh - 1)%nat.
Proof.
  induction mesh as [| t0 mesh IH]; intros k0 x xdot Hx Hf.
  - reflexivity.
  - destruct mesh as [| t1 mesh]; [reflexivity |].
    destruct x as [| x0 [| x1 x]]; cbn [length] in Hx; try lia.
    destruct xdot as [| f0 [| f1 xdot]]; cbn [length] in Hf; try lia.
    rewrite defectConstraints_step. cbn [length].
    rewrite IH by (cbn [length]; lia). cbn [length]. lia.
Qed.

Lemma nth_error_defectConstraints (mesh : list Q) : forall k0 x xdot k,
  length x = length mesh -> length xdot = length mesh ->
  (S k < length mesh)%nat ->
  nth_error (CasOC.defectConstraints k0 mesh x xdot) k =
    Some (CasOC.equalToZero (CasOC.Defect (k0 + k))
            (CasOC.defectVector (nth (S k) mesh 0 - nth k mesh 0)
               (nth k x []) (nth (S k) x [])
               (nth k xdot []) (nth (S k) xdot []))).
Proof.
  induction mesh as [| t0 mesh IH]; intros k0 x xdot k Hx Hf Hk.
  - cbn [length] in Hk. lia.
  - destruct mesh as [| t1 mesh]; [cbn [length] in Hk; lia |].
    destruct x as [| x0 [| x1 x]]; cbn [length] in Hx; try lia.
    destruct xdot as [| f0 [| f1 xdot]]; cbn [length] in Hf; try lia.
    rewrite defectConstraints_step.
    destruct k as [| k].
    + cbn [nth_error nth]. rewrite Nat.add_0_r. reflexivity.
    + cbn [nth_error]. rewrite IH; cbn [length] in *; try lia.
      replace (S k0 + k)%nat with (k0 + S k)%nat by lia. reflexivity.
Qed.

Lemma filter_isDefect_defectConstraints (mesh : list Q) : forall k0 x xdot,
  filter CasOC.isDefect (CasOC.defectConstraints k0 mesh x xdot)
  = CasOC.defectConstraints k0 mesh x xdot.
Proof.
  induction mesh as [| t0 mesh IH]; intros k0 x xdot; [reflexivity |].
  destruct mesh as [| t1 mesh]; [reflexivity |].
  destruct x as [| x0 [| x1 x]]; try reflexivity.
  destruct xdot as [| f0 [| f1 xdot]]; try reflexivity.
  rewrite defectConstraints_step.
  cbn [filter CasOC.isDefect CasOC.equalToZero CasOC.con_kind].
  rewrite IH. reflexivity.
Qed.

Lemma filter_isDefect_pathConstraints (p : CasOC.Problem) (path : list (list Q)) :
  filter CasOC.isDefect (CasOC.pathConstraints p path) = [].
Proof.
  unfold CasOC.pathConstraints.
  induction (CasOC.indexed path) as [| kg l IH]; [reflexivity |].
  cbn [map filter CasOC.isDefect CasOC.con_kind]. exact IH.
Qed.

Lemma filter_notDefect_defectConstraints (mesh : list Q) : forall k0 x xdot,
  filter (fun c => negb (CasOC.isDefect c))
         (CasOC.defectConstraints k0 mesh x xdot) = [].
Proof.
  induction mesh as [| t0 mesh IH]; intros k0 x xdot; [reflexivity |].
  destruct mesh as [| t1 mesh]; [reflexivity |].
  destruct x as [| x0 [| x1 x]]; try reflexivity.
  destruct xdot as [| f0 [| f1 xdot]]; try reflexivity.
  rewrite defectConstraints_step.
  cbn [filter CasOC.isDefect CasOC.equalToZero CasOC.con_kind negb].
  apply IH.
Qed.

Lemma filter_notDefect_pathConstraints (p : CasOC.Problem) (path : list (list Q)) :
  filter (fun c => negb (CasOC.isDefect c)) (CasOC.pathConstraints p path)
  = CasOC.pathConstraints p path.
Proof.
  unfold CasOC.pathConstraints.
  induction (CasOC.indexed path) as [| kg l IH]; [reflexivity |].
  cbn [map filter CasOC.isDefect CasOC.con_kind negb]. rewrite IH. reflexivity.
Qed.

Lemma length_pathConstraints (p : CasOC.Problem) (path : list (list Q)) :
  length (CasOC.pathConstraints p path) = length path.
Proof.
  unfold CasOC.pathConstraints. rewrite length_map. apply length_indexed.
Qed.

Lemma nth_error_pathConstraints (p : CasOC.Problem) (path : list (list Q))
    (k : nat) :
  (k < length path)%nat ->
  nth_error (CasOC.pathConstraints p path) k =
    Some (CasOC.mkConstraint (CasOC.PathConstraint k)
            (map CasOC.lower (CasOC.pathConstraintInfos p))
            (nth k path [])
            (map CasOC.upper (CasOC.pathConstraintInfos p))).
Proof.
  intros Hk. unfold CasOC.pathConstraints.
  rewrite nth_error_map.
  rewrite (nth_error_indexed path k _ (nth_error_nth' path [] Hk)).
  reflexivity.
Qed.

Lemma numEquations_constant (cs : list CasOC.Constraint) (n : nat) :
  (forall c, In c cs -> length (CasOC.con_expr c) = n) ->
  CasOC.numEquations cs = (length cs * n)%nat.
Proof.
  induction cs as [| c cs IH]; intros Hall; [reflexivity |].
  cbn [CasOC.numEquations fold_right length].
  fold (CasOC.numEquations cs).
  rewrite IH by (intros c' Hin; apply Hall; right; exact Hin).
  rewrite (Hall c) by (left; reflexivity). lia.
Qed.

Lemma defectConstraints_dimension (mesh : list Q) (x xdot : list (list Q))
    (n_x k0 : nat) (c : CasOC.Constraint) :
  nodeData (length mesh) n_x x -> nodeData (length mesh) n_x xdot ->
  In c (CasOC.defectConstraints k0 mesh x xdot) ->
  length (CasOC.con_expr c) = n_x.
Proof.
  intros [Hx Hxn] [Hf Hfn] Hin.
  destruct (In_nth_error _ _ Hin) as [k Hk].
  assert (Hlt : (k < length (CasOC.defectConstraints k0 mesh x xdot))%nat)
    by (apply nth_error_Some; rewrite Hk; discriminate).
  rewrite length_defectConstraints in Hlt by assumption.
  rewrite nth_error_defectConstraints in Hk by (try assumption; lia).
  injection Hk as <-. cbn [CasOC.equalToZero CasOC.con_expr].
  apply length_defectVector; (apply Hxn || apply Hfn); lia.
Qed.

(** C3.  For every mesh of N >= 2 nodes (strictly increasing or not), with
    one state vector and one derivative vector of dimension [n_x] per node,
    the constraints emitted by [applyConstraintsImpl] contain exactly N-1
    defect constraints, the k-th one for interval k, for k = 0..N-2; it has
    dimension [n_x], its j-th component is
    [x_{k+1} - x_k - (h_k/2) (xdot_k + xdot_{k+1})] and its lower and upper
    bounds are both the zero vector, so every component is constrained to
    equal zero. *)
Theorem C3_trapezoidal_defect_constraints
    (self : CasOC.Transcription) (mesh : list Q) (vars : CasOC.VariablesMX)
    (xdot residual kcerr path : list (list Q)) (N n_x : nat) :
  (2 <= N)%nat ->
  length mesh = N ->
  nodeData N n_x (CasOC.vars_states vars) ->
  nodeData N n_x xdot ->
  let defects :=
    filter CasOC.isDefect
      (CasOC.applyConstraintsImpl self mesh vars xdot residual kcerr path) in
  let h := fun k : nat => nth (S k) mesh 0 - nth k mesh 0 in
  let x := fun k : nat => nth k (CasOC.vars_states vars) [] in
  let f := fun k : nat => nth k xdot [] in
  length defects = (N - 1)%nat
  /\ forall k, (k < N - 1)%nat ->
       exists c,
         nth_error defects k = Some c
         /\ CasOC.con_kind c = CasOC.Defect k
         /\ length (CasOC.con_expr c) = n_x
         /\ (forall j, (j < n_x)%nat ->
               nth j (CasOC.con_expr c) 0 =
                 nth j (x (S k)) 0 - nth j (x k) 0
                 - (h k / 2) * (nth j (f k) 0 + nth j (f (S k)) 0))
         /\ CasOC.con_lower c = CasOC.vzeros n_x
         /\ CasOC.con_upper c = CasOC.vzeros n_x.
Proof.
  intros HN Hmesh Hx Hf defects h x f. subst N.
  assert (Hdef : defects =
                 CasOC.defectConstraints 0 mesh (CasOC.vars_states vars) xdot).
  { unfold defects, CasOC.applyConstraintsImpl.
    rewrite filter_app, filter_isDefect_defectConstraints,
      filter_isDefect_pathConstraints. apply app_nil_r. }
  destruct Hx as [Hx Hxn]. destruct Hf as [Hf Hfn].
  rewrite Hdef. split.
  - apply length_defectConstraints; assumption.
  - intros k Hk. eexists. split.
    + apply nth_error_defectConstraints; try assumption. lia.
    + cbn [CasOC.equalToZero CasOC.con_kind CasOC.con_expr CasOC.con_lower
           CasOC.con_upper Nat.add].
      assert (Hlen : length (CasOC.defectVector (nth (S k) mesh 0 - nth k mesh 0)
                               (x k) (x (S k)) (f k) (f (S k))) = n_x)
        by (apply length_defectVector; (apply Hxn || apply Hfn); lia).
      fold (x k) (x (S k)) (f k) (f (S k)). rewrite Hlen.
      repeat split.
      intros j Hj.
      apply (@nth_defectVector _ _ _ _ _ n_x); try assumption;
        (apply Hxn || apply Hfn); lia.
Qed.

Section NLPFacts.
Import CasOC.
Import CasOCTranscription.

Lemma filter_map_constant {A : Type} (sel : DecisionVariable -> bool)
    (g : A -> DecisionVariable) (l : list A) (b : bool) :
  (forall a, sel (g a) = b) ->
  filter sel (map g l) = if b then map g l else [].
Proof.
  intros Hsel. induction l as [| a l IH]; cbn [map filter].
  - destruct b; reflexivity.
  - rewrite Hsel, IH. destruct b; reflexivity.
Qed.

Lemma length_valuesOf (select : VarKind -> bool)
    (variables : list DecisionVariable) :
  forall z, (length variables <= length z)%nat ->
    length (valuesOf select variables z)
    = length (filter (fun v => select (var_kind v)) variables).
Proof.
  unfold valuesOf.
  induction variables as [| v variables IH]; intros z Hlen; [reflexivity |].
  destruct z as [| q z]; cbn [length] in Hlen; [lia |].
  cbn [combine filter fst].
  destruct (select (var_kind v)); cbn [map length]; rewrite IH by lia;
    reflexivity.
Qed.

(** How many variables of one node's state vector a node contributes. *)
Lemma states_of_nodeVariables (p : Problem) (N node k : nat) :
  length (filter (fun v => isStateOf k (var_kind v)) (nodeVariables p N node))
  = if Nat.eqb node k then getNumStates p else 0%nat.
Proof.
  unfold nodeVariables. rewrite filter_app, length_app.
  rewrite (filter_map_constant _ _ _ (Nat.eqb node k)) by reflexivity.
  rewrite (filter_map_constant _ _ _ false) by reflexivity.
  destruct (Nat.eqb node k); cbn [length].
  - rewrite length_map, length_indexed. unfold getNumStates. lia.
  - reflexivity.
Qed.

Lemma controls_of_nodeVariables (p : Problem) (N node k : nat) :
  length (filter (fun v => isControlOf k (var_kind v))
            (nodeVariables p N node))
  = if Nat.eqb node k then getNumControls p else 0%nat.
Proof.
  unfold nodeVariables. rewrite filter_app, length_app.
  rewrite (filter_map_constant _ _ _ false) by reflexivity.
  rewrite (filter_map_constant _ _ _ (Nat.eqb node k)) by reflexivity.
  destruct (Nat.eqb node k); cbn [length].
  - rewrite length_map, length_indexed. unfold getNumControls. lia.
  - reflexivity.
Qed.

(** Counting, over the nodes [start .. start+len-1], the variables that a
    node-indexed selection picks. *)
Lemma count_over_nodes (p : Problem) (N k size : nat)
    (sel : DecisionVariable -> bool) :
  (forall node, length (filter sel (nodeVariables p N node))
                = if Nat.eqb node k then size else 0%nat) ->
  forall len start,
    length (filter sel (flat_map (nodeVariables p N) (seq start len)))
    = if (start <=? k)%nat && (k <? start + len)%nat then size else 0%nat.
Proof.
  intros Hnode. induction len as [| len IH]; intros start.
  - cbn [seq flat_map filter length].
    replace (k <? start + 0)%nat with (k <? start)%nat by (f_equal; lia).
    destruct (start <=? k)%nat eqn:H1, (k <? start)%nat eqn:H2;
      try reflexivity.
    apply Nat.leb_le in H1. apply Nat.ltb_lt in H2. lia.
  - cbn [seq flat_map]. rewrite filter_app, length_app, Hnode, IH.
    destruct (Nat.eqb start k) eqn:Heq.
    + apply Nat.eqb_eq in Heq. subst k.
      replace (S start <=? start)%nat with false
        by (symmetry; apply Nat.leb_gt; lia).
      replace (start <=? start)%nat with true
        by (symmetry; apply Nat.leb_le; lia).
      replace (start <? start + S len)%nat with true
        by (symmetry; apply Nat.ltb_lt; lia).
      cbn [andb]. lia.
    + apply Nat.eqb_neq in Heq.
      replace (k <? S start + len)%nat with (k <? start + S len)%nat
        by (f_equal; lia).
      destruct (start <=? k)%nat eqn:H1, (S start <=? k)%nat eqn:H2;
        cbn [andb]; try reflexivity.
      * apply Nat.leb_le in H1. apply Nat.leb_gt in H2. lia.
      * apply Nat.leb_gt in H1. apply Nat.leb_le in H2. lia.
Qed.

Lemma states_of_allocateVariables (p : Problem) (N k : nat) :
  (k < N)%nat ->
  length (filter (fun v => isStateOf k (var_kind v)) (allocateVariables p N))
  = getNumStates p.
Proof.
  intros Hk. unfold allocateVariables, parameterVariables, quadratureVariables.
  rewrite !filter_app, !length_app.
  rewrite (count_over_nodes p N k (getNumStates p))
    by (intros node; apply states_of_nodeVariables).
  rewrite (filter_map_constant _ _ _ false) by reflexivity.
  replace (0 <=? k)%nat with true by (symmetry; apply Nat.leb_le; lia).
  replace (k <? 0 + N)%nat with true by (symmetry; apply Nat.ltb_lt; lia).
  destruct (hasIntegralCost p); cbn; lia.
Qed.

Lemma controls_of_allocateVariables (p : Problem) (N k : nat) :
  (k < N)%nat ->
  length (filter (fun v => isControlOf k (var_kind v))
            (allocateVariables p N))
  = getNumControls p.
Proof.
  intros Hk. unfold allocateVariables, parameterVariables, quadratureVariables.
  rewrite !filter_app, !length_app.
  rewrite (count_over_nodes p N k (getNumControls p))
    by (intros node; apply controls_of_nodeVariables).
  rewrite (filter_map_constant _ _ _ false) by reflexivity.
  replace (0 <=? k)%nat with true by (symmetry; apply Nat.leb_le; lia).
  replace (k <? 0 + N)%nat with true by (symmetry; apply Nat.ltb_lt; lia).
  destruct (hasIntegralCost p); cbn; lia.
Qed.

(** What the node-by-node evaluation returns when it returns. *)
Lemma evaluateNodes_returns (ev : Evaluators) (p : Problem)
    (mesh params : list Q) (nodes : list (list Q * list Q)) :
  forall k values,
    evaluateNodes ev p mesh params k nodes = inr values ->
    length values = length nodes
    /\ forall v, In v values ->
         length (fst v) = getNumStates p
         /\ length (snd v) = getNumPathConstraintEquations p.
Proof.
  induction nodes as [| [x u] nodes IH]; intros k values Hev;
    cbn [evaluateNodes] in Hev.
  - injection Hev as <-. split; [reflexivity | intros v []].
  - unfold checkDimension in Hev.
    destruct (Nat.eqb (length (ev_dynamics ev (nth k mesh 0) x u params))
                (getNumStates p)) eqn:Hx; [| discriminate Hev].
    destruct (Nat.eqb (length (ev_pathConstraints ev (nth k mesh 0) x u params))
                (getNumPathConstraintEquations p)) eqn:Hg;
      [| discriminate Hev].
    destruct (evaluateNodes ev p mesh params (S k) nodes) as [e | rest] eqn:Hrest;
      [discriminate Hev |].
    injection Hev as <-. destruct (IH (S k) rest Hrest) as [Hlen Hall].
    split; [cbn [length]; rewrite Hlen; reflexivity |].
    intros v [<- | Hin]; [| apply Hall; exact Hin].
    cbn [fst snd]. split; apply Nat.eqb_eq; assumption.
Qed.

(** The only exception of the evaluation is the size mismatch. *)
Lemma evaluateNodes_throws (ev : Evaluators) (p : Problem)
    (mesh params : list Q) (nodes : list (list Q * list Q)) :
  forall k e,
    evaluateNodes ev p mesh params k nodes = inl e ->
    e = DimensionMismatchError.
Proof.
  induction nodes as [| [x u] nodes IH]; intros k e Hev;
    cbn [evaluateNodes] in Hev; [discriminate Hev |].
  unfold checkDimension in Hev.
  destruct (Nat.eqb (length (ev_dynamics ev (nth k mesh 0) x u params))
              (getNumStates p)); [| injection Hev as <-; reflexivity].
  destruct (Nat.eqb (length (ev_pathConstraints ev (nth k mesh 0) x u params))
              (getNumPathConstraintEquations p));
    [| injection Hev as <-; reflexivity].
  destruct (evaluateNodes ev p mesh params (S k) nodes) as [e' | rest] eqn:Hrest;
    [| discriminate Hev].
  injection Hev as <-. apply (IH (S k) e' Hrest).
Qed.

(** Evaluators of the right sizes are never refused. *)
Lemma evaluateNodes_total (ev : Evaluators) (p : Problem)
    (mesh params : list Q) (nodes : list (list Q * list Q)) :
  (forall t x u q,
     length (ev_dynamics ev t x u q) = getNumStates p
     /\ length (ev_pathConstraints ev t x u q)
        = getNumPathConstraintEquations p) ->
  forall k, exists values, evaluateNodes ev p mesh params k nodes = inr values.
Proof.
  intros Hsizes. induction nodes as [| [x u] nodes IH]; intros k;
    cbn [evaluateNodes].
  - eexists. reflexivity.
  - unfold checkDimension.
    destruct (Hsizes (nth k mesh 0) x u params) as [Hx Hg].
    rewrite Hx, Hg, !Nat.eqb_refl.
    destruct (IH (S k)) as [rest Hrest]. rewrite Hrest.
    eexists. reflexivity.
Qed.

Lemma nodeData_of_values {A : Type} (f : A -> list Q) (d : A)
    (values : list A) (N n : nat) :
  length values = N ->
  (forall v, In v values -> length (f v) = n) ->
  nodeData N n (map f values).
Proof.
  intros Hlen Hall. split; [rewrite length_map; exact Hlen |].
  intros k Hk.
  rewrite (nth_indep _ [] (f d)) by (rewrite length_map; lia).
  rewrite map_nth. apply Hall. apply nth_In. lia.
Qed.

Lemma nodeData_states (p : Problem) (N : nat) (z : list Q) :
  (length (allocateVariables p N) <= length z)%nat ->
  nodeData N (getNumStates p)
    (vars_states (unpackVariables (allocateVariables p N) N z)).
Proof.
  intros Hz. unfold unpackVariables. cbn [vars_states]. split.
  - rewrite length_map, length_seq. reflexivity.
  - intros k Hk.
    rewrite (nth_map_seq (fun node => valuesOf (isStateOf node)
                                        (allocateVariables p N) z) N k [] Hk).
    rewrite length_valuesOf by exact Hz.
    apply states_of_allocateVariables. exact Hk.
Qed.

Lemma length_unpacked_nodes (variables : list DecisionVariable) (N : nat)
    (z : list Q) :
  length (combine (vars_states (unpackVariables variables N z))
                  (vars_controls (unpackVariables variables N z))) = N.
Proof.
  unfold unpackVariables. cbn [vars_states vars_controls].
  rewrite length_combine, !length_map, length_seq. apply Nat.min_id.
Qed.

(** The transcription that comes out of the constructor. *)
Lemma Trapezoidal_ctor_returned (solver : Solver) (problem : Problem)
    (t : Transcription) (log : list Event) :
  run (Trapezoidal_ctor solver problem) = (inr t, log) ->
  t = mkTranscription solver problem (getNumMeshPoints solver)
        (getNumMeshPoints solver)
        (allocateVariables problem (Z.to_nat (getNumMeshPoints solver))).
Proof.
  intros Hrun.
  destruct (getEnforceConstraintDerivatives problem) eqn:Hflag.
  - rewrite (Trapezoidal_ctor_rejects solver problem Hflag) in Hrun.
    discriminate Hrun.
  - rewrite (Trapezoidal_ctor_accepts solver problem Hflag) in Hrun.
    injection Hrun as <- _. reflexivity.
Qed.

(** C5.  For a Problem with [n_x] states, [n_u] controls, [n_p] parameters
    and [n_g] path-constraint outputs, and a mesh of N nodes: the
    [Trapezoidal] constructor returns a transcription whenever the problem
    does not ask for constraint derivatives, and the NLP assembled from a
    transcription it returned has exactly [N (n_x + n_u) + n_p] decision
    variables, plus one exactly when the problem has an integral cost.  At
    every decision vector of that size the constraints of this NLP, when the
    evaluation returns them, hold exactly [(N-1) n_x] defect equations and N
    path-constraint blocks, the k-th one for node k and of size [n_g]; the
    evaluation throws nothing but the size mismatch of an evaluator, and it
    returns whenever the evaluators give vectors of sizes [n_x] and
    [n_g]. *)
Theorem C5_nlp_dimensions (ev : Evaluators) (solver : Solver)
    (problem : Problem) (N : nat) (mesh : list Q) :
  getNumMeshPoints solver = Z.of_nat N ->
  length mesh = N ->
  let n_x := getNumStates problem in
  let n_u := getNumControls problem in
  let n_p := getNumParameters problem in
  let n_g := getNumPathConstraintEquations problem in
  let numVariables :=
    (N * (n_x + n_u) + n_p
     + (if hasIntegralCost problem then 1 else 0))%nat in
  (getEnforceConstraintDerivatives problem = false ->
   exists t log, run (Trapezoidal_ctor solver problem) = (inr t, log))
  /\ forall t log,
       run (Trapezoidal_ctor solver problem) = (inr t, log) ->
       let nlp := buildNLP ev mesh t in
       length (nlp_variables nlp) = numVariables
       /\ forall z, length z = numVariables ->
            (forall cs, nlp_constraints nlp z = inr cs ->
               let blocks := filter (fun c => negb (isDefect c)) cs in
               numEquations (filter isDefect cs) = ((N - 1) * n_x)%nat
               /\ length blocks = N
               /\ forall k, (k < N)%nat ->
                    exists c, nth_error blocks k = Some c
                              /\ con_kind c = PathConstraint k
                              /\ length (con_expr c) = n_g)
            /\ (forall e, nlp_constraints nlp z = inl e ->
                  e = DimensionMismatchError)
            /\ ((forall time x u q,
                   length (ev_dynamics ev time x u q) = n_x
                   /\ length (ev_pathConstraints ev time x u q) = n_g) ->
                exists cs, nlp_constraints nlp z = inr cs).
Proof.
  intros HN Hmesh n_x n_u n_p n_g numVariables. split.
  - intros Hflag. eexists. eexists.
    apply (Trapezoidal_ctor_accepts solver problem Hflag).
  - intros t log Hrun nlp.
    pose proof (Trapezoidal_ctor_returned solver problem t log Hrun) as Ht.
    rewrite HN, Nat2Z.id in Ht.
    assert (Hvars : length (allocateVariables problem N) = numVariables)
      by apply length_allocateVariables.
    subst t. unfold nlp, buildNLP.
    cbn [nlp_variables nlp_constraints t_variables].
    split; [exact Hvars |].
    intros z Hz. unfold constraintsAt, numNodes.
    cbn [t_variables t_numMeshPoints t_problem]. rewrite Nat2Z.id.
    set (vars := unpackVariables (allocateVariables problem N) N z).
    assert (Hx : nodeData N n_x (vars_states vars))
      by (apply nodeData_states; lia).
    pose proof (length_unpacked_nodes (allocateVariables problem N) N z)
      as Hnodes. fold vars in Hnodes.
    destruct (evaluateNodes ev problem mesh (vars_parameters vars) 0
                (combine (vars_states vars) (vars_controls vars)))
      as [e | values] eqn:Hev.
    + split; [intros cs Hcs; discriminate Hcs | split].
      * intros e' He'. injection He' as <-.
        apply (evaluateNodes_throws ev problem mesh _ _ 0 e Hev).
      * intros Hsizes.
        destruct (evaluateNodes_total ev problem mesh (vars_parameters vars)
                    (combine (vars_states vars) (vars_controls vars))
                    Hsizes 0) as [values Hvalues].
        rewrite Hvalues in Hev. discriminate Hev.
    + destruct (evaluateNodes_returns ev problem mesh _ _ 0 values Hev)
        as [Hlen Hall].
      rewrite Hnodes in Hlen.
      assert (Hf : nodeData N n_x (map fst values))
        by (apply (nodeData_of_values fst ([], []) values N n_x Hlen);
            intros v Hin; apply (proj1 (Hall v Hin))).
      assert (Hg : nodeData N n_g (map snd values))
        by (apply (nodeData_of_values snd ([], []) values N n_g Hlen);
            intros v Hin; apply (proj2 (Hall v Hin))).
      split; [| split; [intros e He; discriminate He
                        | intros _; eexists; reflexivity]].
      intros cs Hcs. cbv zeta. injection Hcs as <-.
      unfold applyConstraintsImpl. cbn [t_problem].
      rewrite !filter_app, filter_isDefect_defectConstraints,
        filter_isDefect_pathConstraints, filter_notDefect_defectConstraints,
        filter_notDefect_pathConstraints, app_nil_r.
      cbn [app]. subst N. destruct Hg as [Hglen Hgn]. split; [| split].
      * rewrite (numEquations_constant _ n_x).
        -- rewrite length_defectConstraints by (apply Hx || apply Hf).
           reflexivity.
        -- intros c Hin.
           apply (defectConstraints_dimension mesh _ _ n_x 0 c Hx Hf Hin).
      * rewrite length_pathConstraints. exact Hglen.
      * intros k Hk. eexists. split.
        -- apply nth_error_pathConstraints. rewrite Hglen. exact Hk.
        -- cbn [con_kind con_expr]. split; [reflexivity |].
           apply Hgn. exact Hk.
Qed.
End NLPFacts.



Lemma C3_witness :
  (2 <= 4)%nat
  /\ length sampleMesh = 4%nat
  /\ nodeData 4 2 (CasOC.vars_states sampleVars)
  /\ nodeData 4 2 sampleXdot
  /\ length (filter CasOC.isDefect
               (CasOC.applyConstraintsImpl sampleTranscription sampleMesh
                  sampleVars sampleXdot [] [] samplePath)) = 3%nat.
Proof.
  assert (HN : (2 <= 4)%nat) by lia.
  assert (Hx : nodeData 4 2 (CasOC.vars_states sampleVars)) by node_data.
  assert (Hf : nodeData 4 2 sampleXdot) by node_data.
  split; [exact HN | split; [reflexivity | split; [exact Hx | split; [exact Hf |]]]].
  exact (proj1 (C3_trapezoidal_defect_constraints sampleTranscription
                  sampleMesh sampleVars sampleXdot [] [] samplePath 4 2
                  HN eq_refl Hx Hf)).
Defined.

(** The first defect of the sample data: [x_1 - x_0 - (h_0/2)(f_0 + f_1)]
    with [h_0 = 1/4], which is (0, 1). *)
Example first_defect_of_sample :
  option_map (fun c => map Qred (CasOC.con_expr c))
    (nth_error (CasOC.applyConstraintsImpl sampleTranscription sampleMesh
                  sampleVars sampleXdot [] [] samplePath) 0)
  = Some [0; 1].
Proof. reflexivity. Qed.

Lemma C5_witness :
  CasOC.getNumMeshPoints meshSolver = Z.of_nat 4
  /\ length sampleMesh = 4%nat
  /\ exists t log cs,
       run (CasOC.Trapezoidal_ctor meshSolver (pendulumProblem false))
         = (inr t, log)
       /\ length (CasOCTranscription.nlp_variables
                    (CasOCTranscription.buildNLP sampleEvaluators sampleMesh t))
          = 17%nat
       /\ CasOCTranscription.nlp_constraints
            (CasOCTranscription.buildNLP sampleEvaluators sampleMesh t)
            sampleDecision = inr cs
       /\ CasOC.numEquations (filter CasOC.isDefect cs) = 6%nat
       /\ length (filter (fun c => negb (CasOC.isDefect c)) cs) = 4%nat.
Proof.
  split; [reflexivity | split; [reflexivity |]].
  destruct (C5_nlp_dimensions sampleEvaluators meshSolver
              (pendulumProblem false) 4 sampleMesh eq_refl eq_refl)
    as [Hbuilt Hnlp].
  destruct (Hbuilt eq_refl) as [t [log Hrun]].
  destruct (Hnlp t log Hrun) as [Hvariables Hconstraints].
  destruct (Hconstraints sampleDecision eq_refl) as [Hcounts [_ Hreturns]].
  destruct (Hreturns (fun time x u q => conj eq_refl eq_refl)) as [cs Hcs].
  destruct (Hcounts cs Hcs) as [Hdefects [Hblocks _]].
  exists t, log, cs.
  split; [exact Hrun | split; [exact Hvariables | split; [exact Hcs |]]].
  split; [exact Hdefects | exact Hblocks].
Defined.

(** The constraints of the sample NLP at the sample decision vector: three
    defects, then one path-constraint block per node. *)
Example constraints_of_sample_nlp :
  match fst (run (CasOC.Trapezoidal_ctor meshSolver (pendulumProblem false))) with
  | inr t =>
      match CasOCTranscription.nlp_constraints
              (CasOCTranscription.buildNLP sampleEvaluators sampleMesh t)
              sampleDecision with
      | inr cs => map CasOC.con_kind cs
      | inl _ => []
      end
  | inl _ => []
  end
  = [CasOC.Defect 0; CasOC.Defect 1; CasOC.Defect 2;
     CasOC.PathConstraint 0; CasOC.PathConstraint 1;
     CasOC.PathConstraint 2; CasOC.PathConstraint 3].
Proof. reflexivity. Qed.

(** An evaluator of the wrong size is refused when the constraints are
    evaluated. *)
Example missized_evaluator_is_refused :
  match fst (run (CasOC.Trapezoidal_ctor meshSolver (pendulumProblem false))) with
  | inr t =>
      CasOCTranscription.nlp_constraints
        (CasOCTranscription.buildNLP missizedEvaluators sampleMesh t)
        sampleDecision
  | inl e => inl e
  end
  = inl CasOCTranscription.DimensionMismatchError.
Proof. reflexivity. Qed.

(** The transcription that the [Trapezoidal] constructor returns holds the
    variables of the solver's mesh-point count. *)
Lemma Trapezoidal_ctor_variable_count (solver : CasOC.Solver)
    (problem : CasOC.Problem) (N : nat) :
  CasOC.getEnforceConstraintDerivatives problem = false ->
  CasOC.getNumMeshPoints solver = Z.of_nat N ->
  exists t log,
    run (CasOC.Trapezoidal_ctor solver problem) = (inr t, log)
    /\ length (CasOC.t_variables t) =
         (N * (CasOC.getNumStates problem + CasOC.getNumControls problem)
          + CasOC.getNumParameters problem
          + (if CasOC.hasIntegralCost problem then 1 else 0))%nat.
Proof.
  intros Hflag HN.
  pose proof (Trapezoidal_ctor_accepts solver problem Hflag) as Hctor.
  cbv zeta in Hctor. rewrite HN, Nat2Z.id in Hctor.
  eexists. eexists. split; [exact Hctor |].
  cbn [CasOC.t_variables]. apply length_allocateVariables.
Qed.

(* ================================================================== *)
(** * MocoOrientationTrackingCost: reference setters and [setWeight]   *)
(* ================================================================== *)

Lemma numReferenceSources_file (c : Moco.MocoOrientationTrackingCost) :
  Moco.m_states_table c = Moco.emptyTable Moco.double ->
  Moco.m_rotation_table c = Moco.emptyTable Moco.Rotation ->
  (Moco.numReferenceSources c <= 1)%nat.
Proof.
  intros Hs Hr. unfold Moco.numReferenceSources. rewrite Hs, Hr.
  cbn [Moco.tableIsEmpty Moco.emptyTable Moco.getNumRows Moco.getNumColumns
       Moco.getIndependentColumn Moco.getColumnLabels Moco.getMatrix
       length Nat.eqb andb].
  destruct (String.eqb (Moco.reference_file c) ""); cbn; lia.
Qed.

Lemma numReferenceSources_states (c : Moco.MocoOrientationTrackingCost) :
  Moco.reference_file c = ""%string ->
  Moco.m_rotation_table c = Moco.emptyTable Moco.Rotation ->
  (Moco.numReferenceSources c <= 1)%nat.
Proof.
  intros Hf Hr. unfold Moco.numReferenceSources. rewrite Hf, Hr.
  cbn [Moco.tableIsEmpty Moco.emptyTable Moco.getNumRows Moco.getNumColumns
       Moco.getIndependentColumn Moco.getColumnLabels Moco.getMatrix
       length Nat.eqb andb String.eqb].
  destruct (Moco.tableIsEmpty (Moco.m_states_table c)); cbn; lia.
Qed.

Lemma numReferenceSources_rotation (c : Moco.MocoOrientationTrackingCost) :
  Moco.reference_file c = ""%string ->
  Moco.m_states_table c = Moco.emptyTable Moco.double ->
  (Moco.numReferenceSources c <= 1)%nat.
Proof.
  intros Hf Hs. unfold Moco.numReferenceSources. rewrite Hf, Hs.
  cbn [Moco.tableIsEmpty Moco.emptyTable Moco.getNumRows Moco.getNumColumns
       Moco.getIndependentColumn Moco.getColumnLabels Moco.getMatrix
       length Nat.eqb andb String.eqb].
  destruct (Moco.tableIsEmpty (Moco.m_rotation_table c)); cbn; lia.
Qed.

(** C8.  After any one of [setStatesReferenceFile], [setStatesReference]
    and [setRotationReference], whatever the object held before, the source
    that the setter installs is the argument and the two other sources are
    cleared (the empty string, the default-constructed table); so at most one
    of the three sources is non-empty. *)
Theorem C8_reference_setters_exclusive (c : Moco.MocoOrientationTrackingCost) :
  (forall filepath,
     let c' := Moco.setStatesReferenceFile c filepath in
     Moco.reference_file c' = filepath
     /\ Moco.m_states_table c' = Moco.emptyTable Moco.double
     /\ Moco.m_rotation_table c' = Moco.emptyTable Moco.Rotation
     /\ (Moco.numReferenceSources c' <= 1)%nat)
  /\ (forall ref,
        let c' := Moco.setStatesReference c ref in
        Moco.m_states_table c' = ref
        /\ Moco.reference_file c' = ""%string
        /\ Moco.m_rotation_table c' = Moco.emptyTable Moco.Rotation
        /\ (Moco.numReferenceSources c' <= 1)%nat)
  /\ (forall ref,
        let c' := Moco.setRotationReference c ref in
        Moco.m_rotation_table c' = ref
        /\ Moco.reference_file c' = ""%string
        /\ Moco.m_states_table c' = Moco.emptyTable Moco.double
        /\ (Moco.numReferenceSources c' <= 1)%nat).
Proof.
  split; [| split].
  - intros filepath c'. repeat split.
    apply numReferenceSources_file; reflexivity.
  - intros ref c'. repeat split.
    apply numReferenceSources_states; reflexivity.
  - intros ref c'. repeat split.
    apply numReferenceSources_rotation; reflexivity.
Qed.

(** An object that holds both a file name and a states table holds the
    rotation table only after [setRotationReference]. *)
Example setRotationReference_clears :
  Moco.numReferenceSources sampleCost = 2%nat
  /\ Moco.numReferenceSources
       (Moco.setRotationReference sampleCost
          (Moco.mkTable ["/bodyset/torso"%string] [0%float] []))
     = 1%nat.
Proof. split; reflexivity. Qed.

Lemma getIndex_Some (ws : Moco.MocoWeightSet) (name : string) : forall i,
  Moco.getIndex ws name = Some i ->
  exists w, nth_error ws i = Some w /\ Moco.getName w = name.
Proof.
  induction ws as [| w ws IH]; intros i Hi; cbn [Moco.getIndex] in Hi.
  - discriminate Hi.
  - destruct (String.eqb (Moco.getName w) name) eqn:Hname.
    + injection Hi as <-. exists w. split; [reflexivity |].
      apply String.eqb_eq. exact Hname.
    + destruct (Moco.getIndex ws name) as [i' |]; [| discriminate Hi].
      injection Hi as <-. apply (IH i' eq_refl).
Qed.

Lemma length_updAt (f : Moco.MocoWeight -> Moco.MocoWeight)
    (ws : Moco.MocoWeightSet) : forall i,
  length (Moco.updAt ws i f) = length ws.
Proof.
  induction ws as [| w ws IH]; intros [| i]; cbn [Moco.updAt length];
    try reflexivity.
  rewrite IH. reflexivity.
Qed.

Lemma names_updAt (f : Moco.MocoWeight -> Moco.MocoWeight)
    (ws : Moco.MocoWeightSet) :
  (forall w, Moco.getName (f w) = Moco.getName w) ->
  forall i, map Moco.getName (Moco.updAt ws i f) = map Moco.getName ws.
Proof.
  intros Hf. induction ws as [| w ws IH]; intros [| i]; cbn [Moco.updAt map];
    try reflexivity.
  - rewrite Hf. reflexivity.
  - rewrite IH. reflexivity.
Qed.

Lemma getIndex_updAt (f : Moco.MocoWeight -> Moco.MocoWeight)
    (ws : Moco.MocoWeightSet) (name : string) :
  (forall w, Moco.getName (f w) = Moco.getName w) ->
  forall i, Moco.getIndex (Moco.updAt ws i f) name = Moco.getIndex ws name.
Proof.
  intros Hf. induction ws as [| w ws IH]; intros [| i];
    cbn [Moco.updAt Moco.getIndex]; try reflexivity.
  - rewrite Hf. reflexivity.
  - rewrite IH. reflexivity.
Qed.

Lemma nth_error_updAt_same (f : Moco.MocoWeight -> Moco.MocoWeight)
    (ws : Moco.MocoWeightSet) : forall i,
  nth_error (Moco.updAt ws i f) i = option_map f (nth_error ws i).
Proof.
  induction ws as [| w ws IH]; intros [| i]; cbn [Moco.updAt nth_error];
    try reflexivity.
  apply IH.
Qed.

Lemma nth_error_updAt_other (f : Moco.MocoWeight -> Moco.MocoWeight)
    (ws : Moco.MocoWeightSet) : forall i j, i <> j ->
  nth_error (Moco.updAt ws i f) j = nth_error ws j.
Proof.
  induction ws as [| w ws IH]; intros [| i] [| j] Hij;
    cbn [Moco.updAt nth_error]; try reflexivity; try congruence.
  apply IH. congruence.
Qed.

Lemma getIndex_inj (ws : Moco.MocoWeightSet) : forall name name' i,
  Moco.getIndex ws name = Some i -> Moco.getIndex ws name' = Some i ->
  name = name'.
Proof.
  intros name name' i H1 H2.
  destruct (getIndex_Some ws name i H1) as [w [Hw Hn]].
  destruct (getIndex_Some ws name' i H2) as [w' [Hw' Hn']].
  congruence.
Qed.

Lemma getIndex_append_absent (ws : Moco.MocoWeightSet) (name : string)
    (weight : Moco.double) :
  Moco.getIndex ws name = None ->
  Moco.getIndex (Moco.cloneAndAppend ws (Moco.mkWeight name weight)) name
  = Some (length ws).
Proof.
  unfold Moco.cloneAndAppend.
  induction ws as [| w0 ws IH]; intros Habs;
    cbn [Moco.getIndex app length Moco.getName].
  - rewrite String.eqb_refl. reflexivity.
  - cbn [Moco.getIndex] in Habs.
    destruct (String.eqb (Moco.getName w0) name); [discriminate |].
    destruct (Moco.getIndex ws name); [discriminate |].
    rewrite IH by reflexivity. reflexivity.
Qed.

Lemma weightOf_append_absent (ws : Moco.MocoWeightSet) (name : string)
    (weight : Moco.double) :
  Moco.getIndex ws name = None ->
  Moco.weightOf (Moco.cloneAndAppend ws (Moco.mkWeight name weight)) name
  = Some weight.
Proof.
  intros Habs. unfold Moco.weightOf.
  rewrite (getIndex_append_absent ws name weight Habs).
  unfold Moco.cloneAndAppend.
  rewrite nth_error_app2 by lia. rewrite Nat.sub_diag. reflexivity.
Qed.

Lemma weightOf_updAt (ws : Moco.MocoWeightSet) (name : string)
    (weight : Moco.double) (i : nat) :
  Moco.getIndex ws name = Some i ->
  let ws' := Moco.updAt ws i (fun w => Moco.MocoWeight_setWeight w weight) in
  Moco.weightOf ws' name = Some weight
  /\ forall other, other <> name ->
       Moco.weightOf ws' other = Moco.weightOf ws other.
Proof.
  intros Hi ws'.
  assert (Hidx : forall n, Moco.getIndex ws' n = Moco.getIndex ws n)
    by (intros n; apply getIndex_updAt; intros w; reflexivity).
  destruct (getIndex_Some ws name i Hi) as [w [Hw _]].
  split.
  - unfold Moco.weightOf. rewrite Hidx, Hi. unfold ws'.
    rewrite nth_error_updAt_same, Hw. reflexivity.
  - intros other Hother. unfold Moco.weightOf. rewrite Hidx.
    destruct (Moco.getIndex ws other) as [j |] eqn:Hj; [| reflexivity].
    unfold ws'. rewrite nth_error_updAt_other; [reflexivity |].
    intros ->. apply Hother. apply (getIndex_inj ws other name j Hj Hi).
Qed.

(** C9.  For every frame name and weight, [setWeight] returns (the [get]
    it calls never throws).  Afterwards a lookup of the frame name finds the
    given weight.  When the set already contained the name, the set keeps
    its length and its names and every other name keeps its weight: the
    weight was replaced; when it did not, the set is the old one followed by
    a new entry with that name and weight. *)
Theorem C9_setWeight_replaces_or_appends
    (c : Moco.MocoOrientationTrackingCost) (frameName : string)
    (weight : Moco.double) :
  let ws := Moco.rotation_weights c in
  exists c',
    Moco.setWeight c frameName weight = inr c'
    /\ Moco.weightOf (Moco.rotation_weights c') frameName = Some weight
    /\ Moco.contains (Moco.rotation_weights c') frameName = true
    /\ (Moco.contains ws frameName = true ->
          length (Moco.rotation_weights c') = length ws
          /\ map Moco.getName (Moco.rotation_weights c') = map Moco.getName ws
          /\ forall other, other <> frameName ->
               Moco.weightOf (Moco.rotation_weights c') other
               = Moco.weightOf ws other)
    /\ (Moco.contains ws frameName = false ->
          Moco.rotation_weights c' = ws ++ [Moco.mkWeight frameName weight]).
Proof.
  intros ws. unfold Moco.setWeight, Moco.contains, Moco.get. fold ws.
  destruct (Moco.getIndex ws frameName) as [i |] eqn:Hi.
  - eexists. split; [reflexivity |].
    cbn [Moco.set_rotation_weights Moco.rotation_weights].
    destruct (weightOf_updAt ws frameName weight i Hi) as [Hnew Hold].
    split; [exact Hnew | split; [| split]].
    + rewrite getIndex_updAt by (intros w; reflexivity). rewrite Hi. reflexivity.
    + intros _. split; [apply length_updAt | split; [| exact Hold]].
      apply names_updAt. intros w; reflexivity.
    + intros Hfalse. discriminate Hfalse.
  - eexists. split; [reflexivity |].
    cbn [Moco.set_rotation_weights Moco.rotation_weights].
    split; [| split; [| split]].
    + apply weightOf_append_absent. exact Hi.
    + rewrite (getIndex_append_absent ws frameName weight Hi).
      reflexivity.
    + intros Htrue. discriminate Htrue.
    + intros _. reflexivity.
Qed.

(** Replacing the weight of a frame that is in the set, and adding a frame
    that is not. *)
Example setWeight_replaces :
  match Moco.setWeight sampleCost "pelvis" 5%float with
  | inr c' => Moco.rotation_weights c'
  | inl _ => []
  end
  = [Moco.mkWeight "torso" 1%float; Moco.mkWeight "pelvis" 5%float].
Proof. reflexivity. Qed.

Example setWeight_appends :
  match Moco.setWeight sampleCost "femur_r" 3%float with
  | inr c' => Moco.rotation_weights c'
  | inl _ => []
  end
  = [Moco.mkWeight "torso" 1%float; Moco.mkWeight "pelvis" 2%float;
     Moco.mkWeight "femur_r" 3%float].
Proof. reflexivity. Qed.

(* ================================================================== *)
(** * The [simulate] driver                                             *)
(* ================================================================== *)

Section SimulateFacts.
Import SimulationUtilities.

Variable integrate : Model -> State -> double -> Exception + State.
Variable model : Model.
Variable finalTime : double.
Variable saveStatesFile : bool.
Variable initialTime : double.

(** One pass of the loop body leaves the caller's state and the flag as
    they were, whether the integrator returns or throws. *)
Lemma simulateBody_frame (fr : Frame) (log : list Event) :
  let fr' := snd (fst (simulateBody integrate model finalTime saveStatesFile
                         initialTime fr log)) in
  initialState fr' = initialState fr /\ simulateOnce fr' = simulateOnce fr.
Proof.
  unfold simulateBody.
  destruct (integrate model _ finalTime); split; reflexivity.
Qed.

Lemma simulateLoop_initialState (fuel : nat) :
  forall keys fr log,
    initialState
      (frame (simulateLoop integrate model finalTime saveStatesFile
                initialTime fuel keys fr log))
    = initialState fr.
Proof.
  assert (Hpass : forall fr log e fr' log',
            simulateBody integrate model finalTime saveStatesFile
              initialTime fr log = (e, fr', log') ->
            initialState fr' = initialState fr).
  { intros fr log e fr' log' Hbody.
    pose proof (simulateBody_frame fr log) as Hframe.
    rewrite Hbody in Hframe. exact (proj1 Hframe). }
  induction fuel as [| fuel IH]; intros keys fr log; [reflexivity |].
  cbn [simulateLoop].
  destruct (getUseVisualizer model).
  - destruct keys as [| key keys]; [reflexivity |].
    destruct (Z.eqb key KeyEsc); [reflexivity |].
    destruct (simulateBody integrate model finalTime saveStatesFile
                initialTime fr _) as [[[e |] fr'] log'] eqn:Hbody;
      pose proof (Hpass _ _ _ _ _ Hbody) as Hfr; [exact Hfr |].
    destruct (negb (simulateOnce fr')); [rewrite IH |]; exact Hfr.
  - destruct (simulateBody integrate model finalTime saveStatesFile
                initialTime fr log) as [[[e |] fr'] log'] eqn:Hbody;
      pose proof (Hpass _ _ _ _ _ Hbody) as Hfr; [exact Hfr |].
    destruct (negb (simulateOnce fr')); [rewrite IH |]; exact Hfr.
Qed.
End SimulateFacts.

Section SimulateClaims.
Import SimulationUtilities.

(** C10.  For every model, initial state, final time and sequence of key
    presses: if [finalTime <= initialState.getTime()] then [simulate]
    returns a state equal to the initial state, having only printed the
    "simulation aborted" message: the Manager was neither initialised nor
    asked to integrate.  And in every case, however the call ends, the
    object behind the [initialState] reference is what it was. *)
Theorem C10_simulate_early_return_and_const_argument
    (integrate : Model -> State -> double -> Exception + State)
    (fuel : nat) (keys : list Z)
    (model : Model) (initialState0 : State) (finalTime : double)
    (saveStatesFile : bool) :
  let r := simulate integrate fuel keys model initialState0 finalTime
             saveStatesFile in
  (PrimFloat.leb finalTime (getTime initialState0) = true ->
     outcome r = Returned initialState0
     /\ events r = [CoutSimulationAborted (getTime initialState0)]
     /\ filter isManagerEvent (events r) = [])
  /\ initialState (frame r) = initialState0.
Proof.
  intros r. split.
  - intros Hle. unfold r, simulate. cbn [initialState]. rewrite Hle.
    split; [reflexivity | split; reflexivity].
  - unfold r, simulate. cbn [initialState].
    destruct (PrimFloat.leb finalTime (getTime initialState0));
      [reflexivity |].
    destruct (getUseVisualizer model);
      rewrite simulateLoop_initialState; reflexivity.
Qed.

Lemma C10_witness :
  PrimFloat.leb 0.5%float (getTime restState) = true
  /\ outcome (simulate holdIntegrate 1 [] plainModel restState 0.5%float false)
     = Returned restState.
Proof.
  split; [reflexivity |].
  exact (proj1 (proj1 (C10_simulate_early_return_and_const_argument
                         holdIntegrate 1 [] plainModel restState
                         0.5%float false)
                 eq_refl)).
Defined.

(** When the final time is in the future and there is no visualizer, one
    pass of the loop is made and what the integrator reaches is returned. *)
Lemma simulate_one_pass
    (integrate : Model -> State -> double -> Exception + State)
    (fuel : nat) (keys : list Z) (model : Model) (initialState0 : State)
    (finalTime : double) (saveStatesFile : bool) (reached : State) :
  PrimFloat.leb finalTime (getTime initialState0) = false ->
  getUseVisualizer model = false ->
  integrate model (setTime initialState0 (getTime initialState0)) finalTime
    = inr reached ->
  outcome (simulate integrate (S fuel) keys model initialState0 finalTime
             saveStatesFile)
  = Returned reached.
Proof.
  intros Hle Hviz Hint. unfold simulate. cbn [initialState]. rewrite Hle, Hviz.
  cbn [simulateLoop]. rewrite Hviz.
  unfold simulateBody. cbn [initialState state set_state]. rewrite Hint.
  reflexivity.
Qed.

(** With a visualizer, one key press starts a simulation and ESC then ends
    the call with the state that simulation reached. *)
Example simulate_then_escape :
  outcome (simulate holdIntegrate 5 [10%Z; KeyEsc]
             (mkModel "dp" true) restState 2%float false)
  = Returned (mkState 2%float [0%float; 0%float]).
Proof. reflexivity. Qed.

End SimulateClaims.

(* ================================================================== *)
(** * MocoOrientationTrackingCost: how the mutators compose            *)
(* ================================================================== *)


Lemma fold_append_frame_paths (paths : list string) :
  forall c,
    let c' := fold_left
                (fun c0 path =>
                   Moco.set_frame_paths c0 (Moco.frame_paths c0 ++ [path]))
                paths c in
    Moco.frame_paths c' = Moco.frame_paths c ++ paths
    /\ Moco.set_frame_paths c' [] = Moco.set_frame_paths c [].
Proof.
  induction paths as [| path paths IH]; intros c; cbn [fold_left].
  - split; [symmetry; apply app_nil_r | reflexivity].
  - destruct (IH (Moco.set_frame_paths c (Moco.frame_paths c ++ [path])))
      as [Hpaths Hrest].
    split.
    + rewrite Hpaths. cbn [Moco.set_frame_paths Moco.frame_paths].
      rewrite <- app_assoc. reflexivity.
    + rewrite Hrest. reflexivity.
Qed.

Lemma setFramePaths_eq (c : Moco.MocoOrientationTrackingCost)
    (paths : list string) :
  Moco.setFramePaths c paths = Moco.set_frame_paths c paths.
Proof.
  unfold Moco.setFramePaths.
  destruct (fold_append_frame_paths paths (Moco.set_frame_paths c []))
    as [Hpaths Hrest].
  cbn [Moco.set_frame_paths Moco.frame_paths app] in Hpaths.
  remember (fold_left _ paths (Moco.set_frame_paths c [])) as c' eqn:Hc'.
  clear Hc'. destruct c'. cbn in *. subst. injection Hrest as -> -> -> -> -> ->.
  reflexivity.
Qed.

(** X1.  [setFramePaths] replaces the list of frame paths by its argument,
    in the same order, whatever the list held before, and changes no other
    member; a second call overrides the first. *)
Theorem X1_setFramePaths_replaces (c : Moco.MocoOrientationTrackingCost)
    (paths : list string) :
  let c' := Moco.setFramePaths c paths in
  Moco.frame_paths c' = paths
  /\ Moco.cost_name c' = Moco.cost_name c
  /\ Moco.cost_weight c' = Moco.cost_weight c
  /\ referenceSources c' = referenceSources c
  /\ Moco.rotation_weights c' = Moco.rotation_weights c
  /\ forall earlier, Moco.setFramePaths (Moco.setFramePaths c earlier) paths = c'.
Proof.
  intros c'. unfold c'. rewrite setFramePaths_eq.
  repeat (split; [reflexivity |]).
  intros earlier. rewrite !setFramePaths_eq. reflexivity.
Qed.

Lemma getIndex_None_names (ws : Moco.MocoWeightSet) (name : string) :
  Moco.getIndex ws name = None <-> ~ In name (map Moco.getName ws).
Proof.
  induction ws as [| w ws IH]; cbn [Moco.getIndex map In].
  - split; [intros _ [] | reflexivity].
  - destruct (String.eqb (Moco.getName w) name) eqn:Hname.
    + apply String.eqb_eq in Hname. split; [discriminate |].
      intros Hnot. exfalso. apply Hnot. left. exact Hname.
    + apply String.eqb_neq in Hname.
      destruct (Moco.getIndex ws name) as [i |]; cbn [option_map].
      * split; [discriminate |]. intros Hnot.
        assert (Habs : @Some nat i = None)
          by (apply IH; intros Hin; apply Hnot; right; exact Hin).
        discriminate Habs.
      * split; [| reflexivity]. intros _ [Heq | Hin]; [exact (Hname Heq) |].
        apply (proj1 IH eq_refl Hin).
Qed.

Lemma getIndex_lt (ws : Moco.MocoWeightSet) (name : string) : forall i,
  Moco.getIndex ws name = Some i -> (i < length ws)%nat.
Proof.
  intros i Hi. destruct (getIndex_Some ws name i Hi) as [w [Hw _]].
  apply nth_error_Some. rewrite Hw. discriminate.
Qed.

Lemma getIndex_append_other (ws : Moco.MocoWeightSet) (w : Moco.MocoWeight)
    (other : string) :
  Moco.getName w <> other ->
  Moco.getIndex (Moco.cloneAndAppend ws w) other = Moco.getIndex ws other.
Proof.
  intros Hother. unfold Moco.cloneAndAppend.
  induction ws as [| w0 ws IH]; cbn [Moco.getIndex app].
  - apply String.eqb_neq in Hother. rewrite Hother. reflexivity.
  - destruct (String.eqb (Moco.getName w0) other); [reflexivity |].
    rewrite IH. reflexivity.
Qed.

Lemma weightOf_append_other (ws : Moco.MocoWeightSet) (w : Moco.MocoWeight)
    (other : string) :
  Moco.getName w <> other ->
  Moco.weightOf (Moco.cloneAndAppend ws w) other = Moco.weightOf ws other.
Proof.
  intros Hother. unfold Moco.weightOf.
  rewrite (getIndex_append_other ws w other Hother).
  destruct (Moco.getIndex ws other) as [i |] eqn:Hi; [| reflexivity].
  unfold Moco.cloneAndAppend.
  rewrite nth_error_app1 by (apply (getIndex_lt ws other i Hi)).
  reflexivity.
Qed.

(** What [setWeight] returns, in terms of the weight set alone. *)
Lemma setWeight_cases (c : Moco.MocoOrientationTrackingCost)
    (frameName : string) (weight : Moco.double) :
  let ws := Moco.rotation_weights c in
  exists ws',
    Moco.setWeight c frameName weight = inr (Moco.set_rotation_weights c ws')
    /\ ((exists i, Moco.getIndex ws frameName = Some i
                   /\ ws' = Moco.updAt ws i
                              (fun w => Moco.MocoWeight_setWeight w weight))
        \/ (Moco.getIndex ws frameName = None
            /\ ws' = Moco.cloneAndAppend ws (Moco.mkWeight frameName weight))).
Proof.
  intros ws. unfold Moco.setWeight, Moco.contains, Moco.get. fold ws.
  destruct (Moco.getIndex ws frameName) as [i |] eqn:Hi.
  - eexists. split; [reflexivity |]. left. exists i. split; reflexivity.
  - eexists. split; [reflexivity |]. right. split; reflexivity.
Qed.

(** X2.  [setWeight] on one frame name changes no other member of the cost
    and leaves the weight found under every other name as it was, whether
    the name was in the set or is added to it. *)
Theorem X2_setWeight_frame (c : Moco.MocoOrientationTrackingCost)
    (frameName : string) (weight : Moco.double) :
  exists c',
    Moco.setWeight c frameName weight = inr c'
    /\ Moco.cost_name c' = Moco.cost_name c
    /\ Moco.cost_weight c' = Moco.cost_weight c
    /\ referenceSources c' = referenceSources c
    /\ Moco.frame_paths c' = Moco.frame_paths c
    /\ forall other, other <> frameName ->
         Moco.weightOf (Moco.rotation_weights c') other
         = Moco.weightOf (Moco.rotation_weights c) other.
Proof.
  destruct (setWeight_cases c frameName weight) as [ws' [Hset Hcases]].
  eexists. split; [exact Hset |].
  repeat (split; [reflexivity |]).
  cbn [Moco.set_rotation_weights Moco.rotation_weights].
  intros other Hother.
  destruct Hcases as [[i [Hi ->]] | [Hi ->]].
  - apply (proj2 (weightOf_updAt (Moco.rotation_weights c) frameName weight i Hi)).
    exact Hother.
  - apply weightOf_append_other. cbn [Moco.getName].
    intros Heq. apply Hother. symmetry. exact Heq.
Qed.

(** X3.  [setWeight] never gives a name a second entry: a weight set whose
    names are pairwise distinct stays so, and the set grows by exactly one
    entry when the name was absent and not at all when it was present. *)
Theorem X3_setWeight_no_duplicates (c : Moco.MocoOrientationTrackingCost)
    (frameName : string) (weight : Moco.double) :
  NoDup (map Moco.getName (Moco.rotation_weights c)) ->
  exists c',
    Moco.setWeight c frameName weight = inr c'
    /\ NoDup (map Moco.getName (Moco.rotation_weights c'))
    /\ length (Moco.rotation_weights c')
       = (length (Moco.rotation_weights c)
          + (if Moco.contains (Moco.rotation_weights c) frameName
             then 0 else 1))%nat.
Proof.
  intros Hnodup.
  destruct (setWeight_cases c frameName weight) as [ws' [Hset Hcases]].
  eexists. split; [exact Hset |].
  cbn [Moco.set_rotation_weights Moco.rotation_weights].
  unfold Moco.contains.
  destruct Hcases as [[i [Hi ->]] | [Hi ->]]; rewrite Hi.
  - rewrite names_updAt by (intros w; reflexivity).
    rewrite length_updAt. split; [exact Hnodup | lia].
  - unfold Moco.cloneAndAppend. rewrite map_app, length_app.
    cbn [map Moco.getName length]. split; [| reflexivity].
    apply NoDup_app; [exact Hnodup | apply NoDup_cons; [intros [] | apply NoDup_nil] |].
    intros name Hin [<- | []].
    apply (proj1 (getIndex_None_names _ _) Hi). exact Hin.
Qed.

(** Every call of a mutator returns. *)
Lemma applyCall_returns (c : Moco.MocoOrientationTrackingCost)
    (call : MocoCall) :
  exists c', applyCall c call = inr c'.
Proof.
  destruct call; cbn [applyCall]; try (eexists; reflexivity).
  destruct (setWeight_cases c frameName weight) as [ws' [Hset _]].
  eexists. exact Hset.
Qed.

Lemma applyCall_sources (c c' : Moco.MocoOrientationTrackingCost)
    (call : MocoCall) :
  applyCall c call = inr c' ->
  referenceSources c' = sourcesAfter (referenceSources c) [call].
Proof.
  destruct call; cbn [applyCall sourcesAfter]; intros Hcall;
    try (injection Hcall as <-).
  - reflexivity.
  - reflexivity.
  - reflexivity.
  - rewrite setFramePaths_eq. reflexivity.
  - destruct (setWeight_cases c frameName weight) as [ws' [Hset _]].
    rewrite Hset in Hcall. injection Hcall as <-. reflexivity.
  - reflexivity.
Qed.

Lemma sourcesAfter_cons (sources : string * Moco.TimeSeriesTable
                                   * Moco.TimeSeriesTable_ Moco.Rotation)
    (call : MocoCall) (rest : list MocoCall) :
  sourcesAfter sources (call :: rest)
  = sourcesAfter (sourcesAfter sources [call]) rest.
Proof. destruct call; reflexivity. Qed.

(** The sources after a sequence of calls. *)
Lemma applyCalls_sources (calls : list MocoCall) :
  forall c : Moco.MocoOrientationTrackingCost,
  exists c',
    applyCalls c calls = inr c'
    /\ referenceSources c' = sourcesAfter (referenceSources c) calls.
Proof.
  induction calls as [| call rest IH]; intros c.
  - exists c. split; reflexivity.
  - destruct (applyCall_returns c call) as [c1 Hcall].
    destruct (IH c1) as [c' [Hrest Hsources]].
    exists c'. cbn [applyCalls]. rewrite Hcall.
    rewrite sourcesAfter_cons, <- (applyCall_sources c c1 call Hcall).
    split; [exact Hrest | exact Hsources].
Qed.

(** X7.  Through any sequence of calls of the public mutators, none of which
    throws, the three reference sources are those left by the last reference
    setter of the sequence (its argument in its own source, the two others
    cleared), and those the object had when the sequence has no reference
    setter: [setFramePaths], [setWeight] and [setWeightSet] never touch
    them.  [getReferenceFile] returns the first of the three. *)
Theorem X7_last_reference_setter_wins (calls : list MocoCall)
    (c : Moco.MocoOrientationTrackingCost) :
  exists c',
    applyCalls c calls = inr c'
    /\ referenceSources c' = sourcesAfter (referenceSources c) calls
    /\ Moco.getReferenceFile c'
       = fst (fst (sourcesAfter (referenceSources c) calls)).
Proof.
  destruct (applyCalls_sources calls c) as [c' [Hcalls Hsources]].
  exists c'. split; [exact Hcalls | split; [exact Hsources |]].
  rewrite <- Hsources. reflexivity.
Qed.

Lemma sourcesAfter_atMostOne (calls : list MocoCall) :
  forall sources, atMostOneSource sources ->
                  atMostOneSource (sourcesAfter sources calls).
Proof.
  induction calls as [| call rest IH]; intros sources Hone; [exact Hone |].
  destruct call; cbn [sourcesAfter]; apply IH; try exact Hone;
    unfold atMostOneSource; cbn [fst snd].
  - change (Moco.tableIsEmpty (Moco.emptyTable Moco.double)) with true.
    change (Moco.tableIsEmpty (Moco.emptyTable Moco.Rotation)) with true.
    destruct (String.eqb filepath ""); cbn; lia.
  - change (Moco.tableIsEmpty (Moco.emptyTable Moco.Rotation)) with true.
    destruct (Moco.tableIsEmpty ref); cbn; lia.
  - change (Moco.tableIsEmpty (Moco.emptyTable Moco.double)) with true.
    destruct (Moco.tableIsEmpty ref); cbn; lia.
Qed.

(** X6.  From construction on, through any sequence of calls of the public
    mutators, no call throws and at most one of the three reference sources
    is non-empty. *)
Theorem X6_one_reference_source_invariant (name : string)
    (weight : Moco.double) (calls : list MocoCall) :
  Moco.numReferenceSources (Moco.MocoOrientationTrackingCost_ctor name weight)
  = 0%nat
  /\ exists c',
       applyCalls (Moco.MocoOrientationTrackingCost_ctor name weight) calls
       = inr c'
       /\ (Moco.numReferenceSources c' <= 1)%nat.
Proof.
  split; [reflexivity |].
  destruct (applyCalls_sources calls
              (Moco.MocoOrientationTrackingCost_ctor name weight))
    as [c' [Hcalls Hsources]].
  exists c'. split; [exact Hcalls |].
  change (atMostOneSource (referenceSources c')).
  rewrite Hsources. apply sourcesAfter_atMostOne.
  unfold atMostOneSource. cbn. lia.
Qed.

Lemma X3_witness :
  NoDup (map Moco.getName (Moco.rotation_weights sampleCost))
  /\ exists c',
       Moco.setWeight sampleCost "pelvis" 5%float = inr c'
       /\ NoDup (map Moco.getName (Moco.rotation_weights c'))
       /\ length (Moco.rotation_weights c') = 2%nat.
Proof.
  assert (Hnodup : NoDup (map Moco.getName (Moco.rotation_weights sampleCost))).
  { cbn. repeat constructor; cbn; intuition discriminate. }
  split; [exact Hnodup |].
  exact (X3_setWeight_no_duplicates sampleCost "pelvis" 5%float Hnodup).
Defined.

(** X5.  A reference setter overrides any reference setter called before
    it: the object after the two calls is the object after the second call
    alone, in every member. *)
Theorem X5_reference_setter_overrides (c : Moco.MocoOrientationTrackingCost)
    (first second : MocoCall) :
  isReferenceSetter first = true ->
  isReferenceSetter second = true ->
  applyCalls c [first; second] = applyCalls c [second].
Proof.
  intros Hfirst Hsecond.
  destruct first; try discriminate Hfirst;
    destruct second; try discriminate Hsecond; reflexivity.
Qed.

Lemma X5_witness :
  applyCalls sampleCost
    [CallSetStatesReference (Moco.mkTable ["q"%string] [0%float] [[1%float]]);
     CallSetStatesReferenceFile "ref.sto"]
  = applyCalls sampleCost [CallSetStatesReferenceFile "ref.sto"].
Proof.
  apply (X5_reference_setter_overrides sampleCost
           (CallSetStatesReference
              (Moco.mkTable ["q"%string] [0%float] [[1%float]]))
           (CallSetStatesReferenceFile "ref.sto")); reflexivity.
Defined.

(** X4.  A sequence of [setWeight] calls never throws and acts as
    assignments to a map from frame names to weights: afterwards the weight
    found under a name is that of the last call for that name, and the one
    found before the calls when no call named it. *)
Theorem X4_setWeight_last_call_wins
    (assignments : list (string * Moco.double)) :
  forall c : Moco.MocoOrientationTrackingCost,
  exists c',
    applyCalls c (setWeightCalls assignments) = inr c'
    /\ forall name,
         Moco.weightOf (Moco.rotation_weights c') name
         = lastAssigned assignments name
             (Moco.weightOf (Moco.rotation_weights c) name).
Proof.
  induction assignments as [| [n w] rest IH]; intros c.
  - exists c. split; reflexivity.
  - cbn [setWeightCalls map applyCalls applyCall fst snd].
    destruct (Moco.setWeight c n w) as [e | c1] eqn:Hset.
    + destruct (setWeight_cases c n w) as [ws' [Hret _]].
      rewrite Hret in Hset. discriminate Hset.
    + destruct (IH c1) as [c' [Hcalls Hweights]].
      exists c'. split; [exact Hcalls |].
      intros name. rewrite Hweights. cbn [lastAssigned]. f_equal.
      destruct (setWeight_cases c n w) as [ws' [Hret Hcases]].
      rewrite Hret in Hset. injection Hset as <-.
      cbn [Moco.set_rotation_weights Moco.rotation_weights].
      destruct (String.eqb n name) eqn:Hname.
      * apply String.eqb_eq in Hname. subst name.
        destruct Hcases as [[i [Hi ->]] | [Hi ->]].
        -- apply (proj1 (weightOf_updAt _ n w i Hi)).
        -- apply weightOf_append_absent. exact Hi.
      * apply String.eqb_neq in Hname.
        destruct Hcases as [[i [Hi ->]] | [Hi ->]].
        -- apply (proj2 (weightOf_updAt _ n w i Hi)).
           intros Heq. apply Hname. symmetry. exact Heq.
        -- apply weightOf_append_other. exact Hname.
Qed.

(* ================================================================== *)
(** * [simulate]: one pass, replays, ESC and exceptions                *)
(* ================================================================== *)

Section SimulateMore.
Import SimulationUtilities.


Variable integrate : Model -> State -> double -> Exception + State.
Variable model : Model.
Variable finalTime : double.
Variable saveStatesFile : bool.

Lemma setTime_getTime (s : State) : setTime s (getTime s) = s.
Proof. destruct s. reflexivity. Qed.

(** One pass of the loop body when the integrator returns. *)
Lemma simulateBody_returns (fr : Frame) (log : list Event) (reached : State) :
  integrate model (initialState fr) finalTime = inr reached ->
  simulateBody integrate model finalTime saveStatesFile
    (getTime (initialState fr)) fr log
  = (None, mkFrame (initialState fr) reached (simulateOnce fr),
     log ++ passEvents model finalTime saveStatesFile (initialState fr)).
Proof.
  intros Hint. unfold simulateBody, passEvents.
  cbn [set_state initialState state simulateOnce].
  rewrite setTime_getTime, Hint.
  destruct saveStatesFile; rewrite <- ?app_assoc; reflexivity.
Qed.

Lemma simulateBody_throws (fr : Frame) (log : list Event) (e : Exception) :
  integrate model (initialState fr) finalTime = inl e ->
  simulateBody integrate model finalTime saveStatesFile
    (getTime (initialState fr)) fr log
  = (Some e, mkFrame (initialState fr) (initialState fr) (simulateOnce fr),
     log ++ [ManagerInitialize (initialState fr); ManagerIntegrate finalTime]).
Proof.
  intros Hint. unfold simulateBody.
  cbn [set_state initialState state simulateOnce].
  rewrite setTime_getTime, Hint. rewrite <- app_assoc. reflexivity.
Qed.

Lemma simulateLoop_replays (ks : list Z) :
  forall fuel rest fr log reached,
    getUseVisualizer model = true ->
    simulateOnce fr = false ->
    integrate model (initialState fr) finalTime = inr reached ->
    Forall (fun key => key <> KeyEsc) ks ->
    (length ks < fuel)%nat ->
    simulateLoop integrate model finalTime saveStatesFile
      (getTime (initialState fr)) fuel (ks ++ KeyEsc :: rest) fr log
    = mkResult
        (Returned (match ks with [] => state fr | _ => reached end))
        (mkFrame (initialState fr)
                 (match ks with [] => state fr | _ => reached end) false)
        (log ++ replayEvents model finalTime saveStatesFile (initialState fr) ks
             ++ [SiloClear; SiloWaitForKeyHit KeyEsc]).
Proof.
  induction ks as [| key ks IH];
    intros fuel rest fr log reached Hviz Honce Hint Hkeys Hfuel.
  - destruct fuel as [| fuel]; [cbn [length] in Hfuel; lia |].
    cbn [simulateLoop app]. rewrite Hviz.
    change (Z.eqb KeyEsc KeyEsc) with true. cbv iota.
    destruct fr as [i s o]. cbn [simulateOnce] in Honce. subst o.
    reflexivity.
  - destruct fuel as [| fuel]; [cbn [length] in Hfuel; lia |].
    cbn [length] in Hfuel.
    inversion Hkeys as [| key' ks' Hkey Hks]; subst.
    cbn [simulateLoop app]. rewrite Hviz.
    replace (Z.eqb key KeyEsc) with false
      by (symmetry; apply Z.eqb_neq; exact Hkey).
    cbv iota. rewrite (simulateBody_returns fr _ reached Hint).
    cbn [simulateOnce]. rewrite Honce. cbn [negb].
    rewrite (IH fuel rest
               (mkFrame (initialState fr) reached false)
               _ reached Hviz eq_refl Hint Hks);
      [| lia].
    cbn [initialState state]. unfold replayEvents. cbn [flat_map].
    f_equal.
    + destruct ks; reflexivity.
    + destruct ks; reflexivity.
    + rewrite <- !app_assoc. reflexivity.
Qed.
End SimulateMore.

Section SimulateExtras.
Import SimulationUtilities.

(** X8.  Without a visualizer and with a final time in the future, when
    the integrator returns, [simulate] makes exactly one simulation and no
    key press is waited for: the Manager is initialised with a state equal
    to the initial state, integrates to the final time, the states are
    printed to "<model_name>_states.sto" exactly when [saveStatesFile] is
    set, and the state the integrator reached is returned. *)
Theorem X8_simulate_without_visualizer
    (integrate : Model -> State -> double -> Exception + State)
    (fuel : nat) (keys : list Z) (model : Model) (initialState0 : State)
    (finalTime : double) (saveStatesFile : bool) (reached : State) :
  PrimFloat.leb finalTime (getTime initialState0) = false ->
  getUseVisualizer model = false ->
  integrate model initialState0 finalTime = inr reached ->
  let r := simulate integrate (S fuel) keys model initialState0 finalTime
             saveStatesFile in
  outcome r = Returned reached
  /\ events r =
       [ManagerInitialize initialState0; ManagerIntegrate finalTime]
       ++ (if saveStatesFile
           then [StoragePrint (getName model ++ "_states.sto")]
           else []).
Proof.
  intros Hle Hviz Hint r. unfold r, simulate.
  cbn [initialState]. rewrite Hle, Hviz.
  cbn [simulateLoop]. rewrite Hviz.
  pose proof (simulateBody_returns integrate model finalTime saveStatesFile
                (mkFrame initialState0 initialState0 true) [] reached Hint)
    as Hbody.
  cbn [initialState] in Hbody. rewrite Hbody.
  cbn [simulateOnce negb outcome events app]. split; reflexivity.
Qed.

(** X9.  With a visualizer, when the first key pressed is ESC, [simulate]
    returns the initial state: the visualizer was set up and a frame drawn,
    but the Manager was never initialised nor asked to integrate, and
    nothing was printed. *)
Theorem X9_simulate_escape_first
    (integrate : Model -> State -> double -> Exception + State)
    (fuel : nat) (rest : list Z) (model : Model) (initialState0 : State)
    (finalTime : double) (saveStatesFile : bool) :
  PrimFloat.leb finalTime (getTime initialState0) = false ->
  getUseVisualizer model = true ->
  let r := simulate integrate (S fuel) (KeyEsc :: rest) model initialState0
             finalTime saveStatesFile in
  outcome r = Returned initialState0
  /\ events r = visualizerSetUp initialState0
                ++ [SiloClear; SiloWaitForKeyHit KeyEsc]
  /\ filter isManagerEvent (events r) = [].
Proof.
  intros Hle Hviz r. unfold r, simulate.
  cbn [initialState]. rewrite Hle, Hviz.
  cbn [simulateLoop]. rewrite Hviz.
  change (Z.eqb KeyEsc KeyEsc) with true. cbv iota.
  repeat split.
Qed.

(** X10.  With a visualizer, every key press other than ESC starts one
    simulation, and each of them restarts from the initial state (not from
    the state the previous one reached); on ESC the call returns the state
    reached by the last simulation, which is therefore the same however many
    replays were made. *)
Theorem X10_simulate_replays
    (integrate : Model -> State -> double -> Exception + State)
    (fuel : nat) (key : Z) (ks rest : list Z) (model : Model)
    (initialState0 : State) (finalTime : double) (saveStatesFile : bool)
    (reached : State) :
  PrimFloat.leb finalTime (getTime initialState0) = false ->
  getUseVisualizer model = true ->
  integrate model initialState0 finalTime = inr reached ->
  Forall (fun k => k <> KeyEsc) (key :: ks) ->
  (length (key :: ks) < fuel)%nat ->
  let r := simulate integrate fuel ((key :: ks) ++ KeyEsc :: rest) model
             initialState0 finalTime saveStatesFile in
  outcome r = Returned reached
  /\ events r =
       visualizerSetUp initialState0
       ++ flat_map
            (fun k =>
               [SiloClear; SiloWaitForKeyHit k;
                ManagerInitialize initialState0; ManagerIntegrate finalTime]
               ++ (if saveStatesFile
                   then [StoragePrint (getName model ++ "_states.sto")]
                   else []))
            (key :: ks)
       ++ [SiloClear; SiloWaitForKeyHit KeyEsc].
Proof.
  intros Hle Hviz Hint Hkeys Hfuel r. unfold r, simulate.
  cbn [initialState]. rewrite Hle, Hviz.
  pose proof (simulateLoop_replays integrate model finalTime saveStatesFile
                (key :: ks) fuel rest
                (set_simulateOnce
                   (mkFrame initialState0 initialState0 true) false)
                (visualizerSetUp initialState0)
                reached Hviz eq_refl Hint Hkeys Hfuel) as Hloop.
  cbn [initialState set_simulateOnce state] in Hloop.
  cbn [state]. unfold visualizerSetUp in Hloop |- *. rewrite Hloop.
  cbn [outcome events]. split; reflexivity.
Qed.

Lemma simulateLoop_needs_escape
    (integrate : Model -> State -> double -> Exception + State)
    (model : Model) (finalTime : double) (saveStatesFile : bool)
    (initialTime : double) (fuel : nat) :
  forall keys fr log s,
    getUseVisualizer model = true ->
    simulateOnce fr = false ->
    Forall (fun k => k <> KeyEsc) keys ->
    outcome (simulateLoop integrate model finalTime saveStatesFile
               initialTime fuel keys fr log) <> Returned s.
Proof.
  induction fuel as [| fuel IH]; intros keys fr log s Hviz Honce Hkeys.
  - cbn [simulateLoop outcome]. discriminate.
  - cbn [simulateLoop]. rewrite Hviz.
    destruct keys as [| key keys]; [cbn [outcome]; discriminate |].
    inversion Hkeys as [| key' keys' Hkey Hrest]; subst.
    replace (Z.eqb key KeyEsc) with false
      by (symmetry; apply Z.eqb_neq; exact Hkey).
    pose proof (simulateBody_frame integrate model finalTime saveStatesFile
                  initialTime fr (log ++ [SiloClear; SiloWaitForKeyHit key]))
      as Hframe.
    destruct (simulateBody integrate model finalTime saveStatesFile
                initialTime fr _) as [[[e |] fr'] log'];
      cbn [fst snd] in Hframe.
    + cbn [outcome]. discriminate.
    + destruct Hframe as [_ Honce']. rewrite Honce', Honce. cbn [negb].
      apply IH; [exact Hviz | rewrite Honce'; exact Honce | exact Hrest].
Qed.

(** X11.  With a visualizer and a final time in the future, [simulate]
    returns a state only on ESC: as long as no key pressed is ESC the call
    does not return, whatever the integrator does. *)
Theorem X11_simulate_returns_only_on_escape
    (integrate : Model -> State -> double -> Exception + State)
    (fuel : nat) (keys : list Z) (model : Model) (initialState0 : State)
    (finalTime : double) (saveStatesFile : bool) (s : State) :
  PrimFloat.leb finalTime (getTime initialState0) = false ->
  getUseVisualizer model = true ->
  Forall (fun k => k <> KeyEsc) keys ->
  outcome (simulate integrate fuel keys model initialState0 finalTime
             saveStatesFile) <> Returned s.
Proof.
  intros Hle Hviz Hkeys. unfold simulate.
  cbn [initialState]. rewrite Hle, Hviz.
  apply simulateLoop_needs_escape; [exact Hviz | reflexivity | exact Hkeys].
Qed.

(** X12.  Without a visualizer, an exception thrown by the integrator
    leaves [simulate] as it is, after the Manager was initialised; the
    states file is not printed, even when [saveStatesFile] is set. *)
Theorem X12_simulate_integrator_throws
    (integrate : Model -> State -> double -> Exception + State)
    (fuel : nat) (keys : list Z) (model : Model) (initialState0 : State)
    (finalTime : double) (saveStatesFile : bool) (e : Exception) :
  PrimFloat.leb finalTime (getTime initialState0) = false ->
  getUseVisualizer model = false ->
  integrate model initialState0 finalTime = inl e ->
  let r := simulate integrate (S fuel) keys model initialState0 finalTime
             saveStatesFile in
  outcome r = Threw e
  /\ events r = [ManagerInitialize initialState0; ManagerIntegrate finalTime].
Proof.
  intros Hle Hviz Hint r. unfold r, simulate.
  cbn [initialState]. rewrite Hle, Hviz.
  cbn [simulateLoop]. rewrite Hviz.
  pose proof (simulateBody_throws integrate model finalTime saveStatesFile
                (mkFrame initialState0 initialState0 true) [] e Hint)
    as Hbody.
  cbn [initialState] in Hbody. rewrite Hbody.
  split; reflexivity.
Qed.
Lemma X8_witness :
  outcome (simulate holdIntegrate 1 [] plainModel restState 2%float true)
  = Returned (mkState 2%float [0%float; 0%float])
  /\ events (simulate holdIntegrate 1 [] plainModel restState 2%float true)
     = [ManagerInitialize restState; ManagerIntegrate 2%float;
        StoragePrint "dp_states.sto"].
Proof.
  exact (X8_simulate_without_visualizer holdIntegrate 0 [] plainModel
           restState 2%float true (mkState 2%float [0%float; 0%float])
           eq_refl eq_refl eq_refl).
Defined.

Lemma X9_witness :
  outcome (simulate holdIntegrate 1 [KeyEsc; 10%Z] (mkModel "dp" true)
             restState 2%float true)
  = Returned restState.
Proof.
  exact (proj1 (X9_simulate_escape_first holdIntegrate 0 [10%Z]
                  (mkModel "dp" true) restState 2%float true
                  eq_refl eq_refl)).
Defined.

Lemma X10_witness :
  outcome (simulate holdIntegrate 3 ([10%Z; 32%Z] ++ KeyEsc :: [])
             (mkModel "dp" true) restState 2%float false)
  = Returned (mkState 2%float [0%float; 0%float]).
Proof.
  refine (proj1 (X10_simulate_replays holdIntegrate 3 10%Z [32%Z] []
                   (mkModel "dp" true) restState 2%float false
                   (mkState 2%float [0%float; 0%float])
                   eq_refl eq_refl eq_refl _ _)).
  - repeat constructor; discriminate.
  - cbn. lia.
Defined.

Lemma X11_witness :
  outcome (simulate holdIntegrate 5 [10%Z; 32%Z] (mkModel "dp" true)
             restState 2%float false)
  <> Returned restState.
Proof.
  apply (X11_simulate_returns_only_on_escape holdIntegrate 5 [10%Z; 32%Z]
           (mkModel "dp" true) restState 2%float false restState
           eq_refl eq_refl).
  repeat constructor; discriminate.
Defined.

Lemma X12_witness :
  outcome (simulate throwingIntegrate 1 [] plainModel restState 2%float true)
  = Threw (mkException "Integration failed").
Proof.
  exact (proj1 (X12_simulate_integrator_throws throwingIntegrate 0 []
                  plainModel restState 2%float true
                  (mkException "Integration failed")
                  eq_refl eq_refl eq_refl)).
Defined.

End SimulateExtras.

(* ================================================================== *)
(** * Upgrading pre-4.0 kinematics: storages, paths and the file driver *)
(* ================================================================== *)

Section UpgradeFacts.
Import Pre40Kinematics.

Variable findStateIndex : list string -> string -> Z.
Variable SimTK_DTR : double.

Lemma nth_error_scaleEntry (factor : double) (data : list double) :
  forall ix j,
    nth_error (scaleEntry data ix factor) j
    = if Nat.eqb j ix
      then option_map (fun v => PrimFloat.mul v factor) (nth_error data j)
      else nth_error data j.
Proof.
  induction data as [| v data IH]; intros ix j.
  - destruct ix, j; cbn [scaleEntry nth_error Nat.eqb option_map];
      try reflexivity; destruct (Nat.eqb j ix); reflexivity.
  - destruct ix as [| ix], j as [| j];
      cbn [scaleEntry nth_error Nat.eqb option_map]; try reflexivity.
    apply IH.
Qed.

Lemma length_scaleEntry (factor : double) (data : list double) :
  forall ix, length (scaleEntry data ix factor) = length data.
Proof.
  induction data as [| v data IH]; intros [| ix]; cbn [scaleEntry length];
    try reflexivity.
  rewrite IH. reflexivity.
Qed.

Lemma entry_multiplyColumn (s : Storage) (ix : Z) (factor : double)
    (row col : nat) :
  entry (multiplyColumn s ix factor) row col
  = if Nat.eqb col (Z.to_nat ix)
    then option_map (fun v => PrimFloat.mul v factor) (entry s row col)
    else entry s row col.
Proof.
  unfold entry, multiplyColumn. cbn [getRows].
  rewrite nth_error_map.
  destruct (nth_error (getRows s) row) as [r |]; cbn [option_map sv_data].
  - apply nth_error_scaleEntry.
  - destruct (Nat.eqb col (Z.to_nat ix)); reflexivity.
Qed.

Lemma shape_multiplyColumn (s : Storage) (ix : Z) (factor : double) :
  shape (multiplyColumn s ix factor) = shape s.
Proof.
  unfold shape, multiplyColumn.
  cbn [storage_getName isInDegrees getColumnLabels getRows].
  f_equal. rewrite map_map. apply map_ext. intros r.
  cbn [sv_time sv_data]. rewrite length_scaleEntry. reflexivity.
Qed.

Lemma convertCoordinate_shape (motionName : string) (s : Storage)
    (log : list Event) (coord : Coordinate) :
  shape (fst (convertCoordinate findStateIndex SimTK_DTR motionName
                (s, log) coord)) = shape s.
Proof.
  unfold convertCoordinate.
  destruct (getStateIndex findStateIndex s (coord_getName coord) <? 0)%Z;
    cbn [fst]; [reflexivity | apply shape_multiplyColumn].
Qed.

Lemma fold_convert_shape (motionName : string) (coords : list Coordinate) :
  forall s log,
    shape (fst (fold_left (convertCoordinate findStateIndex SimTK_DTR motionName)
                  coords (s, log))) = shape s.
Proof.
  induction coords as [| c coords IH]; intros s log; [reflexivity |].
  cbn [fold_left].
  destruct (convertCoordinate findStateIndex SimTK_DTR motionName (s, log) c)
    as [s1 log1] eqn:Hstep.
  rewrite IH. rewrite <- (convertCoordinate_shape motionName s log c), Hstep.
  reflexivity.
Qed.

Lemma labels_of_shape (s s' : Storage) :
  shape s = shape s' -> getColumnLabels s = getColumnLabels s'.
Proof. unfold shape. intros H. injection H as _ _ Hl _. exact Hl. Qed.

Lemma scaledTimes_succ (n : nat) (factor v : double) :
  scaledTimes (S n) factor v = scaledTimes n factor (PrimFloat.mul v factor).
Proof. unfold scaledTimes. rewrite Nat.iter_succ_r. reflexivity. Qed.

Lemma fold_convert_entry (motionName : string) (coords : list Coordinate)
    (row col : nat) :
  forall s log,
    entry (fst (fold_left (convertCoordinate findStateIndex SimTK_DTR motionName)
                  coords (s, log))) row col
    = option_map
        (scaledTimes (timesTargeted findStateIndex (getColumnLabels s)
                        coords col) SimTK_DTR)
        (entry s row col).
Proof.
  induction coords as [| c coords IH]; intros s log.
  - cbn [fold_left fst timesTargeted filter length scaledTimes Nat.iter].
    destruct (entry s row col); reflexivity.
  - cbn [fold_left].
    pose proof (convertCoordinate_shape motionName s log c) as Hshape.
    destruct (convertCoordinate findStateIndex SimTK_DTR motionName (s, log) c)
      as [s1 log1] eqn:Hstep.
    cbn [fst] in Hshape. rewrite IH.
    rewrite (labels_of_shape s1 s Hshape).
    unfold timesTargeted at 2. cbn [filter].
    fold (timesTargeted findStateIndex (getColumnLabels s) coords col).
    unfold convertCoordinate, getStateIndex in Hstep.
    destruct (findStateIndex (getColumnLabels s) (coord_getName c) <? 0)%Z
      eqn:Hneg.
    + injection Hstep as <- _.
      replace (findStateIndex (getColumnLabels s) (coord_getName c)
               =? Z.of_nat col)%Z with false
        by (symmetry; apply Z.eqb_neq; apply Z.ltb_lt in Hneg; lia).
      reflexivity.
    + injection Hstep as <- _. rewrite entry_multiplyColumn.
      apply Z.ltb_ge in Hneg.
      destruct (findStateIndex (getColumnLabels s) (coord_getName c)
                =? Z.of_nat col)%Z eqn:Hcol.
      * apply Z.eqb_eq in Hcol. rewrite Hcol, Nat2Z.id, Nat.eqb_refl.
        cbn [length]. destruct (entry s row col) as [v |]; cbn [option_map];
          [| reflexivity].
        rewrite scaledTimes_succ. reflexivity.
      * apply Z.eqb_neq in Hcol.
        replace (Nat.eqb col (Z.to_nat (findStateIndex (getColumnLabels s)
                                          (coord_getName c)))) with false
          by (symmetry; apply Nat.eqb_neq; lia).
        reflexivity.
Qed.

Lemma fold_convert_log (motionName : string) (coords : list Coordinate) :
  forall s log,
    snd (fold_left (convertCoordinate findStateIndex SimTK_DTR motionName)
           coords (s, log))
    = log ++ map (fun c => CoutNotInMotion motionName (coord_getName c))
               (filter (fun c => (findStateIndex (getColumnLabels s)
                                    (coord_getName c) <? 0)%Z)
                       coords).
Proof.
  induction coords as [| c coords IH]; intros s log.
  - cbn [fold_left snd filter map]. symmetry. apply app_nil_r.
  - cbn [fold_left filter].
    pose proof (convertCoordinate_shape motionName s log c) as Hshape.
    destruct (convertCoordinate findStateIndex SimTK_DTR motionName (s, log) c)
      as [s1 log1] eqn:Hstep.
    cbn [fst] in Hshape. rewrite IH.
    rewrite (labels_of_shape s1 s Hshape).
    unfold convertCoordinate, getStateIndex in Hstep.
    destruct (findStateIndex (getColumnLabels s) (coord_getName c) <? 0)%Z.
    + injection Hstep as _ <-. cbn [map]. rewrite <- app_assoc. reflexivity.
    + injection Hstep as _ <-. reflexivity.
Qed.

Lemma fold_convert_all_missing (motionName : string)
    (coords : list Coordinate) :
  forall s log,
    (forall c, In c coords ->
               (findStateIndex (getColumnLabels s) (coord_getName c) < 0)%Z) ->
    fst (fold_left (convertCoordinate findStateIndex SimTK_DTR motionName)
           coords (s, log)) = s.
Proof.
  induction coords as [| c coords IH]; intros s log Hall; [reflexivity |].
  cbn [fold_left]. unfold convertCoordinate at 2, getStateIndex.
  replace (findStateIndex (getColumnLabels s) (coord_getName c) <? 0)%Z
    with true
    by (symmetry; apply Z.ltb_lt; apply Hall; left; reflexivity).
  apply IH. intros c' Hin. apply Hall. right. exact Hin.
Qed.

Lemma isInconsistent_false (c : Coordinate) :
  isInconsistent c = false
  <-> getUserSpecifiedMotionTypePriorTo40 c = Undefined
      \/ getUserSpecifiedMotionTypePriorTo40 c = getMotionType c.
Proof.
  unfold isInconsistent.
  destruct (getUserSpecifiedMotionTypePriorTo40 c), (getMotionType c);
    cbn; split; intros H; try reflexivity; try discriminate H; auto;
    destruct H as [H | H]; discriminate H.
Qed.

Lemma problemCoords_nil (m : Model) :
  problemCoords m = []
  <-> forall c, In c (getCoordinates m) ->
        getUserSpecifiedMotionTypePriorTo40 c = Undefined
        \/ getUserSpecifiedMotionTypePriorTo40 c = getMotionType c.
Proof.
  unfold problemCoords. split.
  - intros Hnil c Hin. apply isInconsistent_false.
    destruct (isInconsistent c) eqn:Hc; [| reflexivity].
    assert (Hmem : In c (filter isInconsistent (getCoordinates m)))
      by (apply filter_In; split; assumption).
    rewrite Hnil in Hmem. destruct Hmem.
  - intros Hall. induction (getCoordinates m) as [| c cs IH]; [reflexivity |].
    cbn [filter].
    rewrite (proj2 (isInconsistent_false c) (Hall c (or_introl eq_refl))).
    apply IH. intros c' Hin. apply Hall. right. exact Hin.
Qed.

(** What the upgrade returns for a storage in degrees and a model older
    than version 30415. *)
Lemma upgrade_in_degrees (m : Model) (kinematics : Storage) :
  isInDegrees kinematics = true ->
  (getDocumentFileVersion m < 30415)%Z ->
  updatePre40KinematicsStorageFor40MotionType findStateIndex SimTK_DTR
    m kinematics
  = match problemCoords m with
    | [] => (inr (ReturnPointer None), [])
    | _ :: _ =>
        let result :=
          fold_left (convertCoordinate findStateIndex SimTK_DTR
                       (storage_getName kinematics))
                    (problemCoords m) (kinematics, []) in
        (inr (ReturnPointer (Some (fst result))), snd result)
    end.
Proof.
  intros Hdeg Hold. unfold updatePre40KinematicsStorageFor40MotionType.
  rewrite Hdeg. cbn [negb].
  replace (30415 <=? getDocumentFileVersion m)%Z with false
    by (symmetry; apply Z.leb_gt; exact Hold).
  destruct (problemCoords m) as [| c cs]; [reflexivity |].
  cbn [length Nat.eqb].
  destruct (fold_left _ (c :: cs) (kinematics, [])) as [s log].
  reflexivity.
Qed.

(** X13.  For a storage in degrees and a model older than version 30415,
    the upgrade returns the null pointer exactly when no coordinate of the
    model is inconsistent, that is when every coordinate's pre-4.0 motion
    type is undefined or equal to its current motion type. *)
Theorem X13_upgrade_null_iff_consistent (m : Model) (kinematics : Storage) :
  isInDegrees kinematics = true ->
  (getDocumentFileVersion m < 30415)%Z ->
  (fst (updatePre40KinematicsStorageFor40MotionType findStateIndex SimTK_DTR
          m kinematics) = inr (ReturnPointer None)
   <-> forall c, In c (getCoordinates m) ->
         getUserSpecifiedMotionTypePriorTo40 c = Undefined
         \/ getUserSpecifiedMotionTypePriorTo40 c = getMotionType c).
Proof.
  intros Hdeg Hold. rewrite (upgrade_in_degrees m kinematics Hdeg Hold).
  rewrite <- problemCoords_nil.
  destruct (problemCoords m) as [| c cs]; cbn [fst].
  - split; reflexivity.
  - split; intros H; discriminate H.
Qed.

(** X14.  For a storage in degrees and a model older than version 30415
    with an inconsistent coordinate, the upgrade returns a storage with the
    name, the [inDegrees] flag, the column labels, the times and the row
    sizes of the input, in which every value of a state column was
    multiplied by [SimTK_DTR] once for each inconsistent coordinate whose
    state index is that column: columns of no such coordinate are unchanged,
    a column of exactly one is multiplied once. *)
Theorem X14_upgrade_converts_columns (m : Model) (kinematics : Storage) :
  isInDegrees kinematics = true ->
  (getDocumentFileVersion m < 30415)%Z ->
  problemCoords m <> [] ->
  let times := timesTargeted findStateIndex (getColumnLabels kinematics)
                 (problemCoords m) in
  exists updated log,
    updatePre40KinematicsStorageFor40MotionType findStateIndex SimTK_DTR
      m kinematics = (inr (ReturnPointer (Some updated)), log)
    /\ shape updated = shape kinematics
    /\ (forall row col,
          entry updated row col
          = option_map (scaledTimes (times col) SimTK_DTR)
              (entry kinematics row col))
    /\ (forall row col, times col = 0%nat ->
          entry updated row col = entry kinematics row col)
    /\ (forall row col, times col = 1%nat ->
          entry updated row col
          = option_map (fun v => PrimFloat.mul v SimTK_DTR)
              (entry kinematics row col)).
Proof.
  intros Hdeg Hold Hsome times.
  rewrite (upgrade_in_degrees m kinematics Hdeg Hold).
  destruct (problemCoords m) as [| c cs] eqn:Hproblem; [congruence |].
  cbv zeta. eexists. eexists. split; [reflexivity |].
  assert (Hentry : forall row col,
            entry (fst (fold_left
                          (convertCoordinate findStateIndex SimTK_DTR
                             (storage_getName kinematics))
                          (c :: cs) (kinematics, []))) row col
            = option_map (scaledTimes (times col) SimTK_DTR)
                (entry kinematics row col))
    by (intros row col; apply fold_convert_entry).
  split; [apply fold_convert_shape | split; [exact Hentry | split]].
  - intros row col Hzero. rewrite Hentry, Hzero.
    destruct (entry kinematics row col); reflexivity.
  - intros row col Hone. rewrite Hentry, Hone.
    destruct (entry kinematics row col); reflexivity.
Qed.

(** X15.  In the same situation the upgrade prints one message per
    inconsistent coordinate that has no column in the storage, in the order
    of the coordinates, and nothing else; when none of the inconsistent
    coordinates has a column, what is returned is still a non-null storage,
    equal to the input. *)
Theorem X15_upgrade_missing_coordinates (m : Model) (kinematics : Storage) :
  isInDegrees kinematics = true ->
  (getDocumentFileVersion m < 30415)%Z ->
  problemCoords m <> [] ->
  let missing :=
    filter (fun c => (findStateIndex (getColumnLabels kinematics)
                        (coord_getName c) <? 0)%Z)
           (problemCoords m) in
  exists updated,
    updatePre40KinematicsStorageFor40MotionType findStateIndex SimTK_DTR
      m kinematics
    = (inr (ReturnPointer (Some updated)),
       map (fun c => CoutNotInMotion (storage_getName kinematics)
                       (coord_getName c)) missing)
    /\ (missing = problemCoords m -> updated = kinematics).
Proof.
  intros Hdeg Hold Hsome missing.
  rewrite (upgrade_in_degrees m kinematics Hdeg Hold).
  destruct (problemCoords m) as [| c cs] eqn:Hproblem; [congruence |].
  cbv zeta. eexists. split.
  - rewrite fold_convert_log. reflexivity.
  - intros Hall. apply fold_convert_all_missing.
    intros c' Hin. rewrite <- Hall in Hin. unfold missing in Hin.
    apply filter_In in Hin. apply Z.ltb_lt. exact (proj2 Hin).
Qed.
End UpgradeFacts.

Section PathFacts.
Import Pre40Kinematics.

Lemma string_take_app (a b : string) :
  string_take (String.length a) (a ++ b) = a.
Proof.
  induction a as [| c a IH]; cbn [String.length string_take String.append].
  - destruct b; reflexivity.
  - rewrite IH. reflexivity.
Qed.

Lemma string_drop_app (a b : string) :
  string_drop (String.length a) (a ++ b) = b.
Proof.
  induction a as [| c a IH]; cbn [String.length string_drop String.append].
  - reflexivity.
  - exact IH.
Qed.

Lemma string_take_all (s : string) : string_take (String.length s) s = s.
Proof.
  induction s as [| c s IH]; cbn [String.length string_take].
  - reflexivity.
  - rewrite IH. reflexivity.
Qed.

Lemma length_append (a b : string) :
  String.length (a ++ b) = (String.length a + String.length b)%nat.
Proof.
  induction a as [| c a IH]; cbn [String.length String.append].
  - reflexivity.
  - rewrite IH. reflexivity.
Qed.

Lemma rfind_absent (c : ascii) (s : string) :
  occursIn c s = false -> rfind c s = npos.
Proof.
  induction s as [| a s IH]; cbn [occursIn rfind]; [reflexivity |].
  intros Hocc. apply orb_false_elim in Hocc. destruct Hocc as [Ha Hs].
  rewrite (IH Hs), Z.eqb_refl, Ha. reflexivity.
Qed.

Lemma rfind_last (c : ascii) (stem extension : string) :
  (Z.of_nat (String.length (stem ++ String c extension)) < npos)%Z ->
  occursIn c extension = false ->
  rfind c (stem ++ String c extension) = Z.of_nat (String.length stem).
Proof.
  intros Hsize Hext.
  induction stem as [| a stem IH]; cbn [String.append rfind String.length].
  - rewrite (rfind_absent c extension Hext), Z.eqb_refl, Ascii.eqb_refl.
    reflexivity.
  - cbn [String.append String.length] in Hsize.
    rewrite IH by lia.
    rewrite length_append in Hsize. cbn [String.length] in Hsize.
    replace (Z.of_nat (String.length stem) =? npos)%Z with false
      by (symmetry; apply Z.eqb_neq; lia).
    lia.
Qed.

(** X16.  For a file path with a '.', the output path is the input path
    with the suffix inserted before its last '.'; with the empty suffix it
    is the input path itself. *)
Theorem X16_outFilePath_inserts_suffix (stem extension suffix : string) :
  let filePath := (stem ++ String "." extension)%string in
  (Z.of_nat (String.length filePath) < npos)%Z ->
  occursIn "." extension = false ->
  outFilePath filePath suffix
  = inr (stem ++ suffix ++ String "." extension)%string.
Proof.
  intros filePath Hsize Hext. unfold outFilePath.
  destruct (Nat.eqb (String.length suffix) 0) eqn:Hsuffix.
  - apply Nat.eqb_eq in Hsuffix. destruct suffix; [| discriminate Hsuffix].
    reflexivity.
  - unfold filePath. rewrite (rfind_last "." stem extension Hsize Hext).
    unfold substr. fold filePath.
    assert (Hlen : Z.of_nat (String.length filePath)
                   = (Z.of_nat (String.length stem)
                      + Z.of_nat (S (String.length extension)))%Z)
      by (unfold filePath; rewrite length_append; cbn [String.length]; lia).
    replace (Z.of_nat (String.length filePath) <? 0)%Z with false
      by (symmetry; apply Z.ltb_ge; lia).
    replace (Z.of_nat (String.length filePath)
             <? Z.of_nat (String.length stem))%Z with false
      by (symmetry; apply Z.ltb_ge; lia).
    replace (Z.to_nat (Z.min (Z.of_nat (String.length stem))
                         (Z.of_nat (String.length filePath) - 0)))
      with (String.length stem) by lia.
    replace (Z.to_nat (Z.min npos
                         (Z.of_nat (String.length filePath)
                          - Z.of_nat (String.length stem))))
      with (String.length (String "." extension))
      by (cbn [String.length]; lia).
    rewrite Nat2Z.id. cbn [Z.to_nat string_drop].
    unfold filePath.
    rewrite string_take_app, string_drop_app, string_take_all.
    reflexivity.
Qed.

(** X17.  For a file path without any '.' and a non-empty suffix, the
    computation of the output path throws [std::out_of_range]: [rfind]
    gives [npos] and [substr(npos)] is out of range. *)
Theorem X17_outFilePath_without_dot (filePath suffix : string) :
  (Z.of_nat (String.length filePath) < npos)%Z ->
  occursIn "." filePath = false ->
  suffix <> ""%string ->
  outFilePath filePath suffix = inl StdOutOfRange.
Proof.
  intros Hsize Hdot Hsuffix. unfold outFilePath.
  destruct suffix as [| c suffix]; [congruence |].
  cbn [String.length Nat.eqb].
  rewrite (rfind_absent "." filePath Hdot). unfold substr.
  replace (Z.of_nat (String.length filePath) <? 0)%Z with false
    by (symmetry; apply Z.ltb_ge; lia).
  replace (Z.of_nat (String.length filePath) <? npos)%Z with true
    by (symmetry; apply Z.ltb_lt; exact Hsize).
  reflexivity.
Qed.
End PathFacts.

Section DriverFacts.
Import Pre40Kinematics.

Variable findStateIndex : list string -> string -> Z.
Variable SimTK_DTR : double.
Variable readStorage : string -> Exception + Storage.


(** Handling a list of files is handling its first part, then, when that
    completed, the rest. *)
Lemma driver_app (m : Model) (suffix : string) (before : list string) :
  forall after log,
    updatePre40KinematicsFilesFor40MotionType findStateIndex SimTK_DTR
      readStorage m (before ++ after) suffix log
    = match updatePre40KinematicsFilesFor40MotionType findStateIndex SimTK_DTR
      readStorage m before suffix log with
      | (Completed, log') => updatePre40KinematicsFilesFor40MotionType findStateIndex SimTK_DTR
      readStorage m after suffix log'
      | ended => ended
      end.
Proof.
  induction before as [| filePath before IH]; intros after log.
  - reflexivity.
  - cbn [app updatePre40KinematicsFilesFor40MotionType].
    destruct (readStorage filePath) as [e | motion]; [reflexivity |].
    destruct (updatePre40KinematicsStorageFor40MotionType findStateIndex
                SimTK_DTR m motion) as [[e | [| [updated |]]] printed];
      try reflexivity.
    + destruct (outFilePath filePath suffix) as [t | out]; [reflexivity |].
      apply IH.
    + apply IH.
Qed.

(** X18.  The driver handles the files in order and stops at the first
    one that cannot be read: what was written for the files before it stays
    written, and the files after it are not looked at. *)
Theorem X18_driver_stops_at_first_failure (m : Model) (suffix : string)
    (before after : list string) (filePath : string) (e : Exception)
    (log log' : list Event) :
  updatePre40KinematicsFilesFor40MotionType findStateIndex SimTK_DTR
      readStorage m before suffix log = (Completed, log') ->
  readStorage filePath = inl e ->
  updatePre40KinematicsFilesFor40MotionType findStateIndex SimTK_DTR
      readStorage m (before ++ filePath :: after) suffix log
  = (Threw (OpenSimException e), log').
Proof.
  intros Hbefore Hread. rewrite driver_app, Hbefore.
  cbn [updatePre40KinematicsFilesFor40MotionType]. rewrite Hread.
  reflexivity.
Qed.

(** X19.  With a model of version 30415 or later, the driver throws the
    "is up-to-date" exception, naming the model, as soon as its first file
    is readable and in degrees: nothing is written, and the files after it
    are not looked at. *)
Theorem X19_driver_up_to_date_model_throws (m : Model) (suffix : string)
    (after : list string) (filePath : string) (motion : Storage)
    (log : list Event) :
  (30415 <= getDocumentFileVersion m)%Z ->
  readStorage filePath = inr motion ->
  isInDegrees motion = true ->
  updatePre40KinematicsFilesFor40MotionType findStateIndex SimTK_DTR
      readStorage m (filePath :: after) suffix log
  = (Threw (OpenSimException
              (mkException (upToDateMessage (model_getName m)))), log).
Proof.
  intros Hversion Hread Hdeg.
  cbn [updatePre40KinematicsFilesFor40MotionType]. rewrite Hread.
  unfold updatePre40KinematicsStorageFor40MotionType. rewrite Hdeg.
  cbn [negb].
  replace (30415 <=? getDocumentFileVersion m)%Z with true
    by (symmetry; apply Z.leb_le; exact Hversion).
  rewrite app_nil_r. reflexivity.
Qed.

(** X20.  With a model older than version 30415 that has no inconsistent
    coordinate, and files that are all readable and in degrees, the driver
    completes and writes nothing: no message, no file. *)
Theorem X20_driver_consistent_model_writes_nothing (m : Model)
    (suffix : string) (filePaths : list string) (log : list Event) :
  (getDocumentFileVersion m < 30415)%Z ->
  (forall c, In c (getCoordinates m) ->
     getUserSpecifiedMotionTypePriorTo40 c = Undefined
     \/ getUserSpecifiedMotionTypePriorTo40 c = getMotionType c) ->
  (forall filePath, In filePath filePaths ->
     exists motion, readStorage filePath = inr motion
                    /\ isInDegrees motion = true) ->
  updatePre40KinematicsFilesFor40MotionType findStateIndex SimTK_DTR
      readStorage m filePaths suffix log = (Completed, log).
Proof.
  intros Hold Hconsistent. revert log.
  induction filePaths as [| filePath rest IH]; intros log Hfiles;
    [reflexivity |].
  cbn [updatePre40KinematicsFilesFor40MotionType].
  destruct (Hfiles filePath (or_introl eq_refl)) as [motion [Hread Hdeg]].
  rewrite Hread.
  rewrite (upgrade_in_degrees findStateIndex SimTK_DTR m motion Hdeg Hold).
  rewrite (proj2 (problemCoords_nil m) Hconsistent).
  rewrite app_nil_r. apply IH.
  intros f Hin. apply Hfiles. right. exact Hin.
Qed.
End DriverFacts.

Section UpgradeExamples.
Import Pre40Kinematics.

Lemma X13_witness :
  fst (updatePre40KinematicsStorageFor40MotionType firstLabel sampleDTR
         consistentLeg walkMotion) = inr (ReturnPointer None).
Proof.
  apply (proj2 (X13_upgrade_null_iff_consistent firstLabel sampleDTR
                  consistentLeg walkMotion eq_refl eq_refl)).
  intros c [<- | []]. right. reflexivity.
Defined.

Lemma X14_witness :
  exists updated log,
    updatePre40KinematicsStorageFor40MotionType firstLabel sampleDTR
      pre40Leg walkMotion = (inr (ReturnPointer (Some updated)), log)
    /\ entry updated 1 0 = Some 30%float
    /\ entry updated 1 1 = Some (PrimFloat.mul 40%float sampleDTR).
Proof.
  assert (Hsome : problemCoords pre40Leg <> []) by (cbn; discriminate).
  destruct (X14_upgrade_converts_columns firstLabel sampleDTR pre40Leg
              walkMotion eq_refl eq_refl Hsome)
    as [updated [log [Hup [_ [_ [Hsame Hscaled]]]]]].
  exists updated, log. split; [exact Hup | split].
  - rewrite (Hsame 1%nat 0%nat eq_refl). reflexivity.
  - rewrite (Hscaled 1%nat 1%nat eq_refl). reflexivity.
Defined.

Lemma X15_witness :
  exists updated,
    updatePre40KinematicsStorageFor40MotionType firstLabel sampleDTR
      pre40Leg armMotion
    = (inr (ReturnPointer (Some updated)), [CoutNotInMotion "arm" "patella"])
    /\ updated = armMotion.
Proof.
  assert (Hsome : problemCoords pre40Leg <> []) by (cbn; discriminate).
  destruct (X15_upgrade_missing_coordinates firstLabel sampleDTR pre40Leg
              armMotion eq_refl eq_refl Hsome) as [updated [Hup Hsame]].
  exists updated. split; [exact Hup | exact (Hsame eq_refl)].
Defined.

Lemma X16_witness :
  outFilePath "data/walk.mot" "_updated" = inr "data/walk_updated.mot"%string.
Proof.
  apply (X16_outFilePath_inserts_suffix "data/walk" "mot" "_updated").
  - cbn. reflexivity.
  - reflexivity.
Defined.

Lemma X17_witness :
  outFilePath "walk" "_updated" = inl StdOutOfRange.
Proof.
  apply (X17_outFilePath_without_dot "walk" "_updated").
  - cbn. reflexivity.
  - reflexivity.
  - discriminate.
Defined.

Lemma X18_witness :
  updatePre40KinematicsFilesFor40MotionType firstLabel sampleDTR sampleDisk
    pre40Leg (["walk.mot"%string] ++ "lost.mot"%string :: ["arm.mot"%string])
    "_updated" []
  = (Threw (OpenSimException (mkException "Storage: cannot open file")),
     snd (updatePre40KinematicsFilesFor40MotionType firstLabel sampleDTR
            sampleDisk pre40Leg ["walk.mot"%string] "_updated" [])).
Proof.
  apply (X18_driver_stops_at_first_failure firstLabel sampleDTR sampleDisk
           pre40Leg "_updated" ["walk.mot"%string] ["arm.mot"%string]
           "lost.mot" (mkException "Storage: cannot open file")); reflexivity.
Defined.

Lemma X19_witness :
  updatePre40KinematicsFilesFor40MotionType firstLabel sampleDTR sampleDisk
    upToDateLeg ["walk.mot"%string; "arm.mot"%string] "_updated" []
  = (Threw (OpenSimException (mkException (upToDateMessage "leg6dof"))), []).
Proof.
  apply (X19_driver_up_to_date_model_throws firstLabel sampleDTR sampleDisk
           upToDateLeg "_updated" ["arm.mot"%string] "walk.mot"
           walkMotion []).
  - cbn. lia.
  - reflexivity.
  - reflexivity.
Defined.

Lemma X20_witness :
  updatePre40KinematicsFilesFor40MotionType firstLabel sampleDTR sampleDisk
    consistentLeg ["walk.mot"%string; "arm.mot"%string] "_updated" []
  = (Completed, []).
Proof.
  apply (X20_driver_consistent_model_writes_nothing firstLabel sampleDTR
           sampleDisk consistentLeg "_updated").
  - cbn. lia.
  - intros c [<- | []]. right. reflexivity.
  - intros filePath [<- | [<- | []]]; eexists; split; reflexivity.
Defined.

(** The default suffix on a file of the first sample: the patella column is
    converted and written next to the original. *)
Example driver_writes_converted_walk :
  match updatePre40KinematicsFilesFor40MotionType firstLabel sampleDTR
          sampleDisk pre40Leg ["walk.mot"%string] "_updated" [] with
  | (Completed, [CoutWritingConverted from to; StoragePrint out contents]) =>
      (from, to, out, entry contents 0 0, entry contents 0 1)
      = ("walk.mot"%string, "walk_updated.mot"%string,
         "walk_updated.mot"%string, Some 10%float,
         Some (PrimFloat.mul 20%float sampleDTR))
  | _ => False
  end.
Proof. reflexivity. Qed.

End UpgradeExamples.

(* ================================================================== *)
(** * [Solver::solve]: when the engine is reached                      *)
(* ================================================================== *)

(** X21.  A run of [Solver::solve] enters the engine's [solve] exactly when
    the configured name is "trapezoidal" and the Problem does not request
    constraint-derivative enforcement; it constructs a Transcription exactly
    when the name is "trapezoidal"; and it returns a Solution only when the
    engine's [solve], called on the constructed transcription, returned that
    Solution. *)
Theorem X21_engine_reached_iff
    (tsolve : CasOC.Transcription -> Exception + CasOC.Solution)
    (solver : CasOC.Solver) :
  let log := snd (run (CasOC.Solver_solve tsolve solver)) in
  let N := CasOC.getNumMeshPoints solver in
  (In CasOC.TranscriptionSolveCalled log
   <-> CasOC.m_transcriptionScheme solver = "trapezoidal"%string
       /\ CasOC.getEnforceConstraintDerivatives (CasOC.m_problem solver)
          = false)
  /\ (In (CasOC.TranscriptionConstructed N N) log
      <-> CasOC.m_transcriptionScheme solver = "trapezoidal"%string)
  /\ (forall solution,
        fst (run (CasOC.Solver_solve tsolve solver)) = inr solution ->
        exists t, fst (run (CasOC.Trapezoidal_ctor solver
                              (CasOC.m_problem solver))) = inr t
                  /\ tsolve t = inr solution).
Proof.
  intros log N. subst log.
  destruct (String.eqb (CasOC.m_transcriptionScheme solver) "trapezoidal")
    eqn:Hname.
  - apply String.eqb_eq in Hname.
    rewrite (Solver_solve_trapezoidal tsolve solver Hname).
    destruct (CasOC.getEnforceConstraintDerivatives (CasOC.m_problem solver))
      eqn:Hflag.
    + rewrite (Trapezoidal_ctor_rejects solver _ Hflag). fold N.
      cbn [fst snd In]. split; [| split].
      * split; [intros [Hev | []]; discriminate Hev |].
        intros [_ Hfalse]. discriminate Hfalse.
      * split; [intros _; exact Hname | intros _; left; reflexivity].
      * intros solution Hsol. discriminate Hsol.
    + rewrite (Trapezoidal_ctor_accepts solver _ Hflag). fold N.
      cbn [fst snd In app]. split; [| split].
      * split; [intros _; split; [exact Hname | reflexivity] |].
        intros _. right. right. left. reflexivity.
      * split; [intros _; exact Hname | intros _; left; reflexivity].
      * intros solution Hsol. eexists. split; [reflexivity | exact Hsol].
  - unfold run, CasOC.Solver_solve. rewrite Hname.
    unfold bind, OPENSIM_THROW, throw. cbn [fst snd In].
    apply String.eqb_neq in Hname. split; [| split].
    + split; [intros [] | intros [Heq _]; exact (Hname Heq)].
    + split; [intros [] | intros Heq; exact (Hname Heq)].
    + intros solution Hsol. discriminate Hsol.
Qed.
